(** * fetch-ebird.js: the CSV-to-observations core

    A shallow embedding of [parseEbirdDate] and [parseCSV] of
    [src/fetch-ebird.js] (lines 30-94) and of the envelope built at lines
    164-170, with the properties the specification states about them.

    JavaScript strings are sequences of UTF-16 code units; a string is a
    [list N] here and a literal is written [js "14 Dec 2025"]. *)

From Stdlib Require Import Ascii String.
From Stdlib Require Import List NArith ZArith Bool Lia.
From Stdlib Require Import Permutation Sorted.
Import ListNotations.

(** ** Strings *)

Abbreviation char := N (only parsing).
Abbreviation jsstring := (list N) (only parsing).

Definition js (s : string) : jsstring :=
  List.map N_of_ascii (list_ascii_of_string s).

Definition TAB : char := 9%N.
Definition SPACE : char := 32%N.
Definition QUOTE : char := 34%N.
Definition COMMA : char := 44%N.
Definition LF : char := 10%N.
Definition CR : char := 13%N.

Definition is_empty (s : jsstring) : bool :=
  match s with [] => true | _ :: _ => false end.

(** The code units [String.prototype.trim] strips: ECMAScript's WhiteSpace
    (TAB, VT, FF, SP, NBSP, ZWNBSP and the Unicode space separators) and
    LineTerminator (LF, CR, LS, PS). *)
Definition is_white_space (c : char) : bool :=
  ((9 <=? c) && (c <=? 13) || (c =? 32) || (c =? 160) || (c =? 5760)
   || (8192 <=? c) && (c <=? 8202) || (c =? 8232) || (c =? 8233)
   || (c =? 8239) || (c =? 8287) || (c =? 12288) || (c =? 65279))%N.

Fixpoint trim_start (s : jsstring) : jsstring :=
  match s with
  | [] => []
  | c :: s' => if is_white_space c then trim_start s' else s
  end.

Fixpoint trim_end (s : jsstring) : jsstring :=
  match s with
  | [] => []
  | c :: s' =>
      match trim_end s' with
      | [] => if is_white_space c then [] else [c]
      | t => c :: t
      end
  end.

(** [s.trim()] *)
Definition trim (s : jsstring) : jsstring := trim_end (trim_start s).

(** [s.split(sep)] for a separator of one code unit, the only use the source
    makes of it ([split('\n')], [split(' ')]).  The empty string splits into
    one empty part. *)
Fixpoint split (sep : char) (s : jsstring) : list jsstring :=
  match s with
  | [] => [[]]
  | c :: s' =>
      if (c =? sep)%N then [] :: split sep s'
      else match split sep s' with
           | part :: parts => (c :: part) :: parts
           | [] => [[c]]
           end
  end.

(** [s.padStart(2, '0')] *)
Definition padStart2 (s : jsstring) : jsstring :=
  repeat 48%N (2 - length s) ++ s.

(** [s.replace(re, '')] with [re] the global pattern matching one QUOTE:
    every QUOTE is removed. *)
Definition remove_quotes (s : jsstring) : jsstring :=
  filter (fun c => negb (c =? QUOTE)%N) s.

Fixpoint str_eqb (s t : jsstring) : bool :=
  match s, t with
  | [], [] => true
  | c :: s', d :: t' => (c =? d)%N && str_eqb s' t'
  | _, _ => false
  end.

(** ** Values and completions

    An array read past the end and a missing property give [undefined]; a
    property found on [Object.prototype] gives one of its members.  A method
    call on [undefined] throws a [TypeError]. *)

Inductive builtin : Type :=
| NativeFunction (name : jsstring)
| ObjectPrototype.

Inductive value : Type :=
| undefined
| str (s : jsstring)
| object (b : builtin).

Inductive error : Type := TypeError.

Inductive completion (A : Type) : Type :=
| Normal (a : A)
| Throw (e : error).
Arguments Normal {A} a.
Arguments Throw {A} e.

Definition bind {A B : Type} (c : completion A) (k : A -> completion B)
  : completion B :=
  match c with
  | Normal a => k a
  | Throw e => Throw e
  end.

Notation "x <- c ;; k" := (bind c (fun x => k))
  (at level 61, c at next level, right associativity).

(** [a[i]] *)
Definition index (a : list jsstring) (i : nat) : value :=
  match nth_error a i with
  | Some s => str s
  | None => undefined
  end.

(** The receiver of a string method call such as [v.trim()]: [undefined] has
    no properties, and the inherited members have no string methods. *)
Definition receiver (v : value) : completion jsstring :=
  match v with
  | str s => Normal s
  | undefined | object _ => Throw TypeError
  end.

(** [ToBoolean] *)
Definition truthy (v : value) : bool :=
  match v with
  | undefined => false
  | str s => negb (is_empty s)
  | object _ => true
  end.

(** [ToString], as a template literal applies it; V8 prints a native
    function as [function name() { [native code] }]. *)
Definition ToString (v : value) : jsstring :=
  match v with
  | undefined => js "undefined"
  | str s => s
  | object (NativeFunction name) =>
      js "function " ++ name ++ js "() { [native code] }"
  | object ObjectPrototype => js "[object Object]"
  end.

(** ** parseEbirdDate (lines 30-46) *)

Fixpoint assoc {B : Type} (key : jsstring) (table : list (jsstring * B))
  : option B :=
  match table with
  | [] => None
  | (k, b) :: table' => if str_eqb key k then Some b else assoc key table'
  end.

(** The object literal [months]. *)
Definition months : list (jsstring * jsstring) :=
  [ (js "Jan", js "01"); (js "Feb", js "02"); (js "Mar", js "03");
    (js "Apr", js "04"); (js "May", js "05"); (js "Jun", js "06");
    (js "Jul", js "07"); (js "Aug", js "08"); (js "Sep", js "09");
    (js "Oct", js "10"); (js "Nov", js "11"); (js "Dec", js "12") ].

(** The properties every object literal inherits from [Object.prototype]. *)
Definition Object_prototype : list (jsstring * builtin) :=
  [ (js "constructor", NativeFunction (js "Object"));
    (js "__defineGetter__", NativeFunction (js "__defineGetter__"));
    (js "__defineSetter__", NativeFunction (js "__defineSetter__"));
    (js "hasOwnProperty", NativeFunction (js "hasOwnProperty"));
    (js "__lookupGetter__", NativeFunction (js "__lookupGetter__"));
    (js "__lookupSetter__", NativeFunction (js "__lookupSetter__"));
    (js "isPrototypeOf", NativeFunction (js "isPrototypeOf"));
    (js "propertyIsEnumerable", NativeFunction (js "propertyIsEnumerable"));
    (js "toString", NativeFunction (js "toString"));
    (js "valueOf", NativeFunction (js "valueOf"));
    (js "__proto__", ObjectPrototype);
    (js "toLocaleString", NativeFunction (js "toLocaleString")) ].

(** [months[key]]: the own property, else the inherited one, else
    [undefined]. *)
Definition months_get (key : value) : value :=
  let k := ToString key in
  match assoc k months with
  | Some mm => str mm
  | None =>
      match assoc k Object_prototype with
      | Some b => object b
      | None => undefined
      end
  end.

(** The result is a string or [null]; [None] is [null]. *)
Definition parseEbirdDate (dateStr : value) : completion (option jsstring) :=
  s <- receiver dateStr ;;
  let parts := split SPACE (trim s) in
  if negb (length parts =? 3)%nat then Normal None
  else
    d <- receiver (index parts 0) ;;
    let day := padStart2 d in
    let month := months_get (index parts 1) in
    let year := index parts 2 in
    if negb (truthy month) then Normal None
    else Normal (Some (ToString year ++ js "-" ++ ToString month
                         ++ js "-" ++ day)).

(** ** The row tokenizer (lines 61-76)

    The state of the inner loop: the fields pushed so far, the field being
    read, and whether the scan is inside a quoted span. *)

Record scan : Type := Scan {
  columns : list jsstring;
  current : jsstring;
  inQuotes : bool
}.

Definition scan_start : scan :=
  {| columns := []; current := []; inQuotes := false |}.

(** One iteration of [for (let j = 0; j < line.length; j++)]. *)
Definition scan_char (st : scan) (c : char) : scan :=
  if (c =? QUOTE)%N then
    {| columns := columns st; current := current st;
       inQuotes := negb (inQuotes st) |}
  else if (c =? COMMA)%N && negb (inQuotes st) then
    {| columns := columns st ++ [trim (current st)]; current := [];
       inQuotes := inQuotes st |}
  else
    {| columns := columns st; current := current st ++ [c];
       inQuotes := inQuotes st |}.

Definition scan_line (line : jsstring) : scan :=
  fold_left scan_char line scan_start.

(** The loop followed by the last [columns.push(current.trim())]. *)
Definition finish (st : scan) : list jsstring :=
  columns st ++ [trim (current st)].

Definition tokenize (line : jsstring) : list jsstring :=
  finish (scan_line line).

(** ** Observations and the row loop (lines 56-91) *)

Record Observation : Type := {
  date : jsstring;
  sciName : value;
  common : value;
  location : jsstring;
  region : value
}.

(** The body of the outer loop as a function of [lines[i]]: the observation
    it pushes, if any.  [None] is an iteration that pushes nothing (a blank
    line, a short row, a date that is [null] or empty). *)
Definition parseRow (raw : jsstring) : completion (option Observation) :=
  let line := trim raw in
  if is_empty line then Normal None
  else
    let cols := tokenize line in
    if (9 <=? length cols)%nat then
      d <- parseEbirdDate (index cols 8) ;;
      match d with
      | Some dt =>
          if is_empty dt then Normal None
          else
            loc <- receiver (index cols 6) ;;
            Normal (Some {| date := dt;
                            sciName := index cols 4;
                            common := index cols 3;
                            location := remove_quotes loc;
                            region := index cols 7 |})
      | None => Normal None
      end
    else Normal None.

(** [for (let i = 1; i < lines.length; i++)] over the lines from index 1 on,
    [observations] being the array pushed to. *)
Fixpoint rows_loop (rows : list jsstring) (observations : list Observation)
  : completion (list Observation) :=
  match rows with
  | [] => Normal observations
  | raw :: rows' =>
      r <- parseRow raw ;;
      match r with
      | Some o => rows_loop rows' (observations ++ [o])
      | None => rows_loop rows' observations
      end
  end.

(** ** Dates as time values

    A number is an integer or NaN ([None]); time values are milliseconds
    since the epoch, UTC. *)

Definition number := option Z.

Definition is_digit (c : char) : bool := ((48 <=? c) && (c <=? 57))%N.

Definition digit_value (c : char) : option Z :=
  if is_digit c then Some (Z.of_N c - 48)%Z else None.

(** The fields of a string in the date-only form [YYYY-MM-DD] of the
    ECMAScript date-time string format. *)
Definition iso_date_fields (s : jsstring) : option (Z * Z * Z) :=
  match s with
  | [y1; y2; y3; y4; h1; m1; m2; h2; d1; d2] =>
      if ((h1 =? 45) && (h2 =? 45))%N then
        match digit_value y1, digit_value y2, digit_value y3, digit_value y4,
              digit_value m1, digit_value m2, digit_value d1, digit_value d2
        with
        | Some a, Some b, Some c, Some d, Some e, Some f, Some g, Some h =>
            Some (1000 * a + 100 * b + 10 * c + d, 10 * e + f, 10 * g + h)%Z
        | _, _, _, _, _, _, _, _ => None
        end
      else None
  | _ => None
  end.

Definition is_leap (y : Z) : bool :=
  ((y mod 4 =? 0) && (negb (y mod 100 =? 0) || (y mod 400 =? 0)))%Z.

(** ECMAScript's DayFromYear. *)
Definition DayFromYear (y : Z) : Z :=
  (365 * (y - 1970) + (y - 1969) / 4 - (y - 1901) / 100 + (y - 1601) / 400)%Z.

Definition days_before_month (y m : Z) : Z :=
  (match m with
   | 2 => 31 | 3 => 59 | 4 => 90 | 5 => 120 | 6 => 151 | 7 => 181
   | 8 => 212 | 9 => 243 | 10 => 273 | 11 => 304 | 12 => 334
   | _ => 0
   end
   + (if is_leap y && (3 <=? m) then 1 else 0))%Z.

Definition days_in_month (y m : Z) : Z :=
  (if m =? 2 then (if is_leap y then 29 else 28)
   else if (m =? 4) || (m =? 6) || (m =? 9) || (m =? 11) then 30
   else 31)%Z.

(** MakeDay for month [m] in 1..12: a day past the end of the month runs
    over into the next one, as in V8. *)
Definition MakeDay (y m d : Z) : Z :=
  (DayFromYear y + days_before_month y m + d - 1)%Z.

Definition msPerDay : Z := 86400000.

Section Host.

(** [Date.parse] on every string that is not in the date-only form: the
    date-time and expanded-year forms and the formats the host falls back
    to.  The properties below hold whatever it returns. *)
Variable Date_parse_other : jsstring -> number.

(** [Date.parse]: a date-only string is UTC midnight of that day, and one
    with a month outside 01..12 or a day outside 01..31 is NaN. *)
Definition Date_parse (s : jsstring) : number :=
  match iso_date_fields s with
  | Some (y, m, d) =>
      if ((1 <=? m) && (m <=? 12) && (1 <=? d) && (d <=? 31))%Z
      then Some (msPerDay * MakeDay y m d)%Z
      else None
  | None => Date_parse_other s
  end.

(** [(a, b) => new Date(a.date) - new Date(b.date)] *)
Definition compare_dates (a b : Observation) : number :=
  match Date_parse (date a), Date_parse (date b) with
  | Some x, Some y => Some (x - y)%Z
  | _, _ => None
  end.

(** [Array.prototype.sort] with a comparator: a stable sort, in which [b]
    goes before [a] only when the comparator is positive on [(a, b)]; a
    comparator result of NaN counts as +0.  The order is fixed by the
    language when the comparator is consistent; for the others the model
    is the stable insertion sort. *)
Definition positive (v : number) : bool :=
  match v with
  | Some z => (0 <? z)%Z
  | None => false
  end.

Fixpoint insert (a : Observation) (l : list Observation)
  : list Observation :=
  match l with
  | [] => [a]
  | b :: l' => if positive (compare_dates a b) then b :: insert a l'
               else a :: l
  end.

Fixpoint sort (l : list Observation) : list Observation :=
  match l with
  | [] => []
  | a :: l' => insert a (sort l')
  end.

(** ** parseCSV (lines 51-94) *)
Definition parseCSV (csvContent : jsstring)
  : completion (list Observation) :=
  let lines := split LF csvContent in
  observations <- rows_loop (skipn 1 lines) [] ;;
  Normal (sort observations).

End Host.

(** ** The output document (lines 155-170)

    [dataJson] of [fetchEbirdLifeList], which the specification calls the
    envelope and its construction [run]; the two readings of the clock are
    inputs. *)




(** A host with no format besides the date-only one. *)
Definition date_only_host : jsstring -> number := fun _ => None.

(** ** Notions the properties are stated with *)

(** [parts.join(sep)], the inverse of [split] on parts free of [sep]. *)
Fixpoint join (sep : char) (parts : list jsstring) : jsstring :=
  match parts with
  | [] => []
  | [p] => p
  | p :: ps => p ++ sep :: join sep ps
  end.

(** A field written between quotes. *)
Definition quoted (s : jsstring) : jsstring := QUOTE :: s ++ [QUOTE].

(** The text with every line feed replaced by carriage return, line feed. *)
Definition lf_to_crlf (text : jsstring) : jsstring :=
  flat_map (fun c => if (c =? LF)%N then [CR; LF] else [c]) text.

(** The tokens of a string in the specification's reading: the maximal runs
    of code units that are not white space. *)
Fixpoint ws_tokens_from (cur : jsstring) (s : jsstring) : list jsstring :=
  match s with
  | [] => if is_empty cur then [] else [cur]
  | c :: s' =>
      if is_white_space c then
        (if is_empty cur then ws_tokens_from [] s'
         else cur :: ws_tokens_from [] s')
      else ws_tokens_from (cur ++ [c]) s'
  end.

Definition ws_tokens (s : jsstring) : list jsstring := ws_tokens_from [] s.

(** [s <= t] on strings: the order of the code units. *)
Fixpoint str_leb (s t : jsstring) : bool :=
  match s, t with
  | [], _ => true
  | _ :: _, [] => false
  | c :: s', d :: t' =>
      if (c <? d)%N then true
      else if (c =? d)%N then str_leb s' t'
      else false
  end.

(** A string of the form [YYYY-MM-DD] with a month in 01..12. *)
Definition iso_date_shape (s : jsstring) : bool :=
  match iso_date_fields s with
  | Some (_, m, _) => ((1 <=? m) && (m <=? 12))%Z
  | None => false
  end.

(** A string of the form [YYYY-MM-DD] that names a day of the calendar. *)
Definition valid_iso_date (s : jsstring) : bool :=
  match iso_date_fields s with
  | Some (y, m, d) =>
      ((1 <=? m) && (m <=? 12) && (1 <=? d) && (d <=? days_in_month y m))%Z
  | None => false
  end.

(** The date text of an export: a day of one or two digits, a month
    abbreviation of the table and a year of four digits, one space apart. *)
Definition ebird_date_text (s : jsstring) : Prop :=
  exists d m y,
    s = d ++ SPACE :: m ++ SPACE :: y
    /\ forallb is_digit d = true /\ (1 <= length d <= 2)%nat
    /\ assoc m months <> None
    /\ forallb is_digit y = true /\ length y = 4%nat.

(** The order of the days of the calendar by year, month and day. *)
Definition earlier (a b : Z * Z * Z) : Prop :=
  let '(y, m, d) := a in
  let '(y', m', d') := b in
  (y < y' \/ (y = y' /\ (m < m' \/ (m = m' /\ d < d'))))%Z.

(** The order the comparator sorts by, where it is defined. *)
Definition time_le (host : jsstring -> number) (a b : Observation) : Prop :=
  exists x y,
    Date_parse host (date a) = Some x /\ Date_parse host (date b) = Some y
    /\ (x <= y)%Z.

Definition has_time (host : jsstring -> number) (o : Observation) : Prop :=
  exists x, Date_parse host (date o) = Some x.

(** The order of the strings on the dates of two records. *)
Definition date_le (a b : Observation) : Prop :=
  str_leb (date a) (date b) = true.



Definition fmap {A B : Type} (f : A -> B) (c : completion A) : completion B :=
  x <- c ;; Normal (f x).

(** ** The rest of the script, and notions for it *)

(** What the loop body pushes for one line, and for the lines in order. *)
Definition pushed (raw : jsstring) : list Observation :=
  match parseRow raw with
  | Normal (Some o) => [o]
  | Normal None | Throw _ => []
  end.

Definition collected (rows : list jsstring) : list Observation :=
  flat_map pushed rows.

(** The records of one date. *)
Definition on_date (d : jsstring) (obs : list Observation)
  : list Observation :=
  filter (fun o => str_eqb (date o) d) obs.

(** Lines 177-179 of [fetchEbirdLifeList]: the line logged for the last
    record, if there is one; [None] is nothing logged.  The read of
    [common] on an element past the end would throw. *)
Definition latest_line (obs : list Observation)
  : completion (option jsstring) :=
  if (0 <? length obs)%nat then
    match nth_error obs (length obs - 1) with
    | Some o =>
        Normal (Some (js "   Latest: " ++ ToString (common o)
                        ++ js " (" ++ date o ++ js ")"))
    | None => Throw TypeError
    end
  else Normal None.

(** [s.includes(sub)] *)
Fixpoint starts_with (sub s : jsstring) : bool :=
  match sub, s with
  | [], _ => true
  | _ :: _, [] => false
  | c :: sub', d :: s' => (c =? d)%N && starts_with sub' s'
  end.

Fixpoint includes (s sub : jsstring) : bool :=
  starts_with sub s
  || match s with
     | [] => false
     | _ :: s' => includes s' sub
     end.

(** Lines 126-129: the test after which the script throws
    [Login failed]. *)
Definition login_failed (currentUrl : jsstring) : bool :=
  includes currentUrl (js "login") || includes currentUrl (js "cassso").

(** The address of line 112, up to its query. *)
Definition login_page : jsstring :=
  js "https://secure.birds.cornell.edu/cassso/login".

Definition HYPHEN : char := 45%N.

(** * Properties *)

(** ** Scenarios of the specification *)

Example parseEbirdDate_doc :
  parseEbirdDate (str (js "14 Dec 2025")) = Normal (Some (js "2025-12-14")).
Proof. reflexivity. Qed.

Example parseEbirdDate_single_digit_day :
  parseEbirdDate (str (js " 4 Jul 1999 ")) = Normal (Some (js "1999-07-04")).
Proof. reflexivity. Qed.

Example parseEbirdDate_unknown_month :
  parseEbirdDate (str (js "05 Xyz 2020")) = Normal None.
Proof. reflexivity. Qed.

Example quoting_scenario :
  parseRow (js "1,2,3," ++ quoted (js "Robin") ++ js ",4,5,"
            ++ quoted (js "Forest, Lake") ++ js ",US-NY,"
            ++ quoted (js "01 Jan 2024"))
  = Normal (Some {| date := js "2024-01-01";
                    sciName := str (js "4");
                    common := str (js "Robin");
                    location := js "Forest, Lake";
                    region := str (js "US-NY") |}).
Proof. reflexivity. Qed.

Example invalid_month_scenario :
  forall host,
    parseCSV host (js "h" ++ LF :: js "1,2,3,a,b,5,loc,US,05 Xyz 2020")
    = Normal [].
Proof. reflexivity. Qed.

(** A key found on [Object.prototype] is taken for a month. *)
Example parseEbirdDate_inherited_key :
  parseEbirdDate (str (js "1 constructor 2020"))
  = Normal (Some (js "2020-function Object() { [native code] }-01")).
Proof. reflexivity. Qed.

(** ** Trimming *)

Lemma trim_end_snoc_ws (s : jsstring) (w : char) :
  is_white_space w = true -> trim_end (s ++ [w]) = trim_end s.
Proof.
  intros Hw. induction s as [|c s IH]; simpl.
  - now rewrite Hw.
  - now rewrite IH.
Qed.

Lemma trim_snoc_ws (s : jsstring) (w : char) :
  is_white_space w = true -> trim (s ++ [w]) = trim s.
Proof.
  intros Hw. unfold trim. induction s as [|c s IH].
  - simpl. now rewrite Hw.
  - cbn [app trim_start]. destruct (is_white_space c); [exact IH|].
    now apply (trim_end_snoc_ws (c :: s) w).
Qed.

Lemma trim_end_snoc (s : jsstring) (c : char) :
  is_white_space c = false -> trim_end (s ++ [c]) = s ++ [c].
Proof.
  intros Hc. induction s as [|b s IH]; simpl.
  - now rewrite Hc.
  - rewrite IH. now destruct s.
Qed.

Lemma trim_end_idem (s : jsstring) : trim_end (trim_end s) = trim_end s.
Proof.
  induction s as [|c s IH]; simpl; [reflexivity|].
  destruct (trim_end s) as [|b t] eqn:E.
  - destruct (is_white_space c) eqn:Hc; simpl; [reflexivity|now rewrite Hc].
  - cbn [trim_end] in *. now rewrite IH.
Qed.

Lemma trim_end_cons (c : char) (s : jsstring) :
  is_white_space c = false -> trim_end (c :: s) = c :: trim_end s.
Proof.
  intros Hc. simpl. rewrite Hc. now destruct (trim_end s).
Qed.

Lemma trim_start_head (s : jsstring) :
  trim_start s = []
  \/ exists c t, trim_start s = c :: t /\ is_white_space c = false.
Proof.
  induction s as [|c s IH]; simpl; [now left|].
  destruct (is_white_space c) eqn:Hc; [exact IH|].
  right. now exists c, s.
Qed.

Lemma trim_idem (s : jsstring) : trim (trim s) = trim s.
Proof.
  unfold trim. destruct (trim_start_head s) as [E|(c & t & E & Hc)]; rewrite E.
  - reflexivity.
  - rewrite (trim_end_cons c t Hc). cbn [trim_start]. rewrite Hc.
    rewrite <- (trim_end_cons c t Hc). apply trim_end_idem.
Qed.

(** [trim_end] is [trim_start] read from the other end. *)
Lemma trim_start_snoc (s : jsstring) (c : char) :
  trim_start (s ++ [c])
  = match trim_start s with
    | [] => if is_white_space c then [] else [c]
    | t => t ++ [c]
    end.
Proof.
  induction s as [|b s IH]; [reflexivity|].
  cbn [app trim_start]. now destruct (is_white_space b).
Qed.

Lemma trim_end_rev (s : jsstring) : trim_end s = rev (trim_start (rev s)).
Proof.
  induction s as [|c s IH]; [reflexivity|].
  cbn [trim_end rev]. rewrite trim_start_snoc, IH.
  destruct (trim_start (rev s)) as [|x t]; cbn [rev].
  - now destruct (is_white_space c).
  - rewrite rev_unit. cbn [rev].
    destruct (rev t ++ [x]) eqn:E; [|reflexivity].
    apply app_eq_nil in E as [_ E]. discriminate E.
Qed.

(** [trim] removes white space at the two ends and nothing else. *)
Lemma trim_decompose (s : jsstring) :
  exists a b,
    s = a ++ trim s ++ b
    /\ forallb is_white_space a = true /\ forallb is_white_space b = true.
Proof.
  assert (Hs : forall t, exists a,
               t = a ++ trim_start t /\ forallb is_white_space a = true).
  { induction t as [|c t (a & Ea & Ha)]; [now exists []|].
    cbn [trim_start]. destruct (is_white_space c) eqn:Hc.
    - exists (c :: a). cbn [app forallb]. rewrite Hc, Ha. now rewrite <- Ea.
    - now exists []. }
  assert (He : forall t, exists b,
               t = trim_end t ++ b /\ forallb is_white_space b = true).
  { induction t as [|c t (b & Eb & Hb)]; [now exists []|].
    cbn [trim_end]. destruct (trim_end t) as [|x u].
    - destruct (is_white_space c) eqn:Hc.
      + exists (c :: b). cbn [app forallb]. rewrite Hc, Hb. now rewrite Eb.
      + exists b. now rewrite Eb.
    - exists b. now rewrite Eb at 1. }
  destruct (Hs s) as (a & Ea & Ha).
  destruct (He (trim_start s)) as (b & Eb & Hb).
  exists a, b. unfold trim. now rewrite <- Eb.
Qed.

Lemma In_trim_start (c : char) (s : jsstring) :
  In c (trim_start s) -> In c s.
Proof.
  induction s as [|b s IH]; [trivial|]. cbn [trim_start].
  destruct (is_white_space b); [|trivial]. intros H. right. now apply IH.
Qed.

Lemma In_trim_end (c : char) (s : jsstring) :
  In c (trim_end s) -> In c s.
Proof.
  induction s as [|b s IH]; [trivial|]. cbn [trim_end].
  destruct (trim_end s) as [|x t].
  - destruct (is_white_space b); [contradiction|].
    intros [->|[]]. now left.
  - intros [->|H]; [now left|]. right. now apply IH.
Qed.

Lemma In_trim (c : char) (s : jsstring) : In c (trim s) -> In c s.
Proof. intros H. now apply In_trim_start, In_trim_end. Qed.

(** ** Splitting and joining *)

Lemma split_no_sep (sep : char) (s : jsstring) :
  ~ In sep s -> split sep s = [s].
Proof.
  induction s as [|c s IH]; intros Hn; simpl; [reflexivity|].
  destruct (N.eqb_spec c sep) as [->|_]; [now destruct Hn; left|].
  rewrite IH; [reflexivity|]. intros H. apply Hn. now right.
Qed.

Lemma split_app_sep (sep : char) (h rest : jsstring) :
  ~ In sep h -> split sep (h ++ sep :: rest) = h :: split sep rest.
Proof.
  induction h as [|c h IH]; intros Hn; simpl.
  - now rewrite N.eqb_refl.
  - destruct (N.eqb_spec c sep) as [->|_]; [now destruct Hn; left|].
    rewrite IH; [reflexivity|]. intros H. apply Hn. now right.
Qed.

Lemma split_join (sep : char) (parts : list jsstring) :
  parts <> [] -> Forall (fun p => ~ In sep p) parts ->
  split sep (join sep parts) = parts.
Proof.
  induction parts as [|p ps IH]; intros Hne Hall; [contradiction|].
  inversion Hall as [|? ? Hp Hps]; subst.
  destruct ps as [|q ps].
  - simpl. now apply split_no_sep.
  - cbn [join]. rewrite split_app_sep by assumption.
    f_equal. apply IH; [discriminate|assumption].
Qed.

(** ** The tokenizer *)

Lemma scan_columns_trimmed (line : jsstring) (st : scan) :
  Forall (fun f => trim f = f) (columns st) ->
  Forall (fun f => trim f = f) (columns (fold_left scan_char line st)).
Proof.
  revert st. induction line as [|c line IH]; intros st Hst; [exact Hst|].
  cbn [fold_left]. apply IH. unfold scan_char.
  destruct (c =? QUOTE)%N; [exact Hst|].
  destruct ((c =? COMMA)%N && negb (inQuotes st)); [|exact Hst].
  cbn [columns]. apply Forall_app. split; [exact Hst|].
  constructor; [apply trim_idem|constructor].
Qed.

Lemma tokenize_trimmed (line : jsstring) :
  Forall (fun f => trim f = f) (tokenize line).
Proof.
  unfold tokenize, finish. apply Forall_app. split.
  - apply scan_columns_trimmed. constructor.
  - constructor; [apply trim_idem|constructor].
Qed.

Lemma index_nth (a : list jsstring) (i : nat) :
  (i < length a)%nat -> index a i = str (nth i a []).
Proof.
  intros Hi. unfold index.
  destruct (nth_error a i) as [s|] eqn:E.
  - now rewrite (nth_error_nth a i [] E).
  - apply nth_error_None in E. lia.
Qed.

(** ** parseEbirdDate *)

Lemma is_empty_app_cons (s t : jsstring) (c : char) :
  is_empty (s ++ c :: t) = false.
Proof. now destruct s. Qed.

(** The string returned holds the two hyphens, so it is never empty and the
    test [if (date)] of the caller fails on [null] only. *)
Lemma parseEbirdDate_not_empty (v : value) (d : jsstring) :
  parseEbirdDate v = Normal (Some d) -> is_empty d = false.
Proof.
  unfold parseEbirdDate. destruct (receiver v) as [s|]; [|discriminate].
  cbn [bind]. destruct (negb (length (split SPACE (trim s)) =? 3)%nat);
    [discriminate|].
  destruct (receiver (index (split SPACE (trim s)) 0)); [|discriminate].
  cbn [bind]. destruct (negb (truthy _)); [discriminate|].
  intros H. injection H as <-. apply is_empty_app_cons.
Qed.

(** On a string the function returns: the reads [parts[0..2]] follow the
    test of [parts.length]. *)
Lemma parseEbirdDate_returns (s : jsstring) :
  exists r, parseEbirdDate (str s) = Normal r.
Proof.
  unfold parseEbirdDate. cbn [receiver bind].
  destruct (split SPACE (trim s)) as [|d [|m [|y [|z parts]]]];
    cbn; eauto.
  destruct (negb (truthy _)); eauto.
Qed.

Lemma parseEbirdDate_parts (s d m y : jsstring) :
  split SPACE (trim s) = [d; m; y] ->
  parseEbirdDate (str s)
  = if negb (truthy (months_get (str m))) then Normal None
    else Normal (Some (y ++ js "-" ++ ToString (months_get (str m))
                         ++ js "-" ++ padStart2 d)).
Proof.
  intros E. unfold parseEbirdDate. cbn [receiver bind]. now rewrite E.
Qed.

Lemma months_values (m mm : jsstring) :
  assoc m months = Some mm ->
  exists a b, mm = [48 + a; 48 + b]%N /\ (a <= 1)%N /\ (b <= 9)%N
              /\ (1 <= 10 * a + b <= 12)%N.
Proof.
  unfold months. cbn [assoc].
  repeat (destruct (str_eqb m _);
          [intros H; injection H as <-; vm_compute;
           first [ exists 0%N, 1%N; repeat split; discriminate
                 | exists 0%N, 2%N; repeat split; discriminate
                 | exists 0%N, 3%N; repeat split; discriminate
                 | exists 0%N, 4%N; repeat split; discriminate
                 | exists 0%N, 5%N; repeat split; discriminate
                 | exists 0%N, 6%N; repeat split; discriminate
                 | exists 0%N, 7%N; repeat split; discriminate
                 | exists 0%N, 8%N; repeat split; discriminate
                 | exists 0%N, 9%N; repeat split; discriminate
                 | exists 1%N, 0%N; repeat split; discriminate
                 | exists 1%N, 1%N; repeat split; discriminate
                 | exists 1%N, 2%N; repeat split; discriminate ]|]).
  discriminate.
Qed.

(** The padding of the day: one code unit gets a zero in front, two or
    more stay as they are. *)
Lemma padStart2_one (c : char) : padStart2 [c] = [48%N; c].
Proof. reflexivity. Qed.

Lemma padStart2_long (s : jsstring) :
  (2 <= length s)%nat -> padStart2 s = s.
Proof.
  intros H. unfold padStart2.
  now replace (2 - length s)%nat with 0%nat by lia.
Qed.

(** With three parts, the second a key of [months]. *)
Lemma parseEbirdDate_month (s d m y mm : jsstring) :
  split SPACE (trim s) = [d; m; y] -> assoc m months = Some mm ->
  parseEbirdDate (str s)
  = Normal (Some (y ++ js "-" ++ mm ++ js "-" ++ padStart2 d)).
Proof.
  intros E Hm. rewrite (parseEbirdDate_parts s d m y E).
  unfold months_get. cbn [ToString]. rewrite Hm.
  destruct (months_values m mm Hm) as (a & b & -> & _). reflexivity.
Qed.

(** ** Rows *)

Lemma tokenize_nil : tokenize [] = [[]].
Proof. reflexivity. Qed.

(** C1: a row whose trimmed text tokenizes into at least nine fields, the
    ninth of which normalizes to a date, yields the observation made of
    field 3 (common), field 4 (sciName), field 6 without its quotes
    (location), field 7 (region) and the normalized field 8 (date); every
    field is free of leading and trailing white space. *)
Theorem parseRow_extracts_fields (raw : jsstring) (cols : list jsstring)
  (d : jsstring) :
  tokenize (trim raw) = cols ->
  (9 <= length cols)%nat ->
  parseEbirdDate (index cols 8) = Normal (Some d) ->
  parseRow raw
  = Normal (Some {| date := d;
                    sciName := str (nth 4 cols []);
                    common := str (nth 3 cols []);
                    location := remove_quotes (nth 6 cols []);
                    region := str (nth 7 cols []) |})
  /\ Forall (fun f => trim f = f) cols.
Proof.
  intros Hcols Hlen Hdate. split.
  - unfold parseRow. destruct (is_empty (trim raw)) eqn:He.
    + destruct (trim raw); [|discriminate].
      rewrite tokenize_nil in Hcols. subst cols. simpl in Hlen. lia.
    + rewrite Hcols. apply Nat.leb_le in Hlen as Hb. rewrite Hb, Hdate.
      cbn [bind]. rewrite (parseEbirdDate_not_empty _ _ Hdate).
      rewrite !index_nth by lia. reflexivity.
  - subst cols. apply tokenize_trimmed.
Qed.

Lemma parseRow_extracts_fields_witness :
  parseRow (js "  x,y,z,Blue Jay, Cyanocitta cristata ,n,Central Park,US-NY,3 May 2024")
  = Normal (Some {| date := js "2024-05-03";
                    sciName := str (js "Cyanocitta cristata");
                    common := str (js "Blue Jay");
                    location := js "Central Park";
                    region := str (js "US-NY") |})
  /\ Forall (fun f => trim f = f)
       (tokenize (trim (js "  x,y,z,Blue Jay, Cyanocitta cristata ,n,Central Park,US-NY,3 May 2024"))).
Proof.
  apply (parseRow_extracts_fields
           (js "  x,y,z,Blue Jay, Cyanocitta cristata ,n,Central Park,US-NY,3 May 2024")
           (tokenize (trim (js "  x,y,z,Blue Jay, Cyanocitta cristata ,n,Central Park,US-NY,3 May 2024")))
           (js "2024-05-03")).
  - reflexivity.
  - vm_compute. lia.
  - reflexivity.
Defined.

(** C6: a row whose trimmed text tokenizes into fewer than nine fields
    yields no observation. *)
Theorem parseRow_short_row (raw : jsstring) :
  (length (tokenize (trim raw)) < 9)%nat -> parseRow raw = Normal None.
Proof.
  intros Hlen. unfold parseRow. destruct (is_empty (trim raw)); [reflexivity|].
  apply Nat.leb_gt in Hlen. now rewrite Hlen.
Qed.

Lemma parseRow_short_row_witness :
  parseRow (js "a,b,c,Robin,Turdus migratorius,f,Park,14 Dec 2025")
  = Normal None.
Proof.
  apply (parseRow_short_row
           (js "a,b,c,Robin,Turdus migratorius,f,Park,14 Dec 2025")).
  vm_compute. lia.
Defined.

(** ** The date normalizer *)

(** C2, as the code has it: the parts are those of [split(' ')] on the
    trimmed text, so two parts are one space apart.  With three parts the
    second of which is a key of [months], the result is the year, the
    month number and the day padded to two code units, joined by hyphens;
    with another number of parts, or a second part that is neither a key of
    [months] nor the name of a property of [Object.prototype], the result
    is [null]. *)
Theorem parseEbirdDate_single_spaces (s : jsstring) :
  (forall d m y mm,
      split SPACE (trim s) = [d; m; y] -> assoc m months = Some mm ->
      parseEbirdDate (str s)
      = Normal (Some (y ++ js "-" ++ mm ++ js "-" ++ padStart2 d)))
  /\ (length (split SPACE (trim s)) <> 3%nat ->
      parseEbirdDate (str s) = Normal None)
  /\ (forall d m y,
         split SPACE (trim s) = [d; m; y] ->
         assoc m months = None -> assoc m Object_prototype = None ->
         parseEbirdDate (str s) = Normal None).
Proof.
  split; [|split].
  - intros d m y mm. apply parseEbirdDate_month.
  - intros Hlen. unfold parseEbirdDate. cbn [receiver bind].
    apply Nat.eqb_neq in Hlen. now rewrite Hlen.
  - intros d m y E Hm Hp. rewrite (parseEbirdDate_parts s d m y E).
    unfold months_get. cbn [ToString]. now rewrite Hm, Hp.
Qed.

Lemma parseEbirdDate_single_spaces_witness :
  parseEbirdDate (str (js "9 Mar 2021")) = Normal (Some (js "2021-03-09"))
  /\ parseEbirdDate (str (js "14 Dec")) = Normal None
  /\ parseEbirdDate (str (js "05 dec 2020")) = Normal None.
Proof.
  split; [|split].
  - apply (proj1 (parseEbirdDate_single_spaces (js "9 Mar 2021"))
             (js "9") (js "Mar") (js "2021") (js "03")); reflexivity.
  - apply (proj1 (proj2 (parseEbirdDate_single_spaces (js "14 Dec")))).
    vm_compute. discriminate.
  - apply (proj2 (proj2 (parseEbirdDate_single_spaces (js "05 dec 2020")))
             (js "05") (js "dec") (js "2020")); reflexivity.
Defined.

(** C2 as stated fails: separated by tabs, or with two spaces after the
    day, the text has the three tokens 14, Dec and 2025, and the result is
    [null]: [split(' ')] gives one part in the first case and four in the
    second. *)
Lemma parseEbirdDate_other_white_space :
  ws_tokens (js "14" ++ TAB :: js "Dec" ++ TAB :: js "2025")
  = [js "14"; js "Dec"; js "2025"]
  /\ assoc (js "Dec") months = Some (js "12")
  /\ parseEbirdDate (str (js "14" ++ TAB :: js "Dec" ++ TAB :: js "2025"))
     = Normal None
  /\ ws_tokens (js "14  Dec 2025") = [js "14"; js "Dec"; js "2025"]
  /\ parseEbirdDate (str (js "14  Dec 2025")) = Normal None.
Proof. repeat split. Qed.

(** ** Quoted spans *)

Lemma inQuotes_fold (line : jsstring) (st : scan) :
  inQuotes (fold_left scan_char line st)
  = xorb (inQuotes st) (Nat.odd (count_occ N.eq_dec line QUOTE)).
Proof.
  revert st. induction line as [|c line IH]; intros st.
  - simpl. now rewrite xorb_false_r.
  - cbn [fold_left count_occ]. rewrite IH. unfold scan_char.
    destruct (N.eq_dec c QUOTE) as [->|Hc].
    + rewrite N.eqb_refl. cbn [inQuotes].
      rewrite Nat.odd_succ, <- Nat.negb_odd.
      now destruct (inQuotes st), (Nat.odd _).
    + apply N.eqb_neq in Hc. rewrite Hc.
      now destruct ((c =? COMMA)%N && negb (inQuotes st)).
Qed.

Lemma scan_char_quote (st : scan) :
  scan_char st QUOTE
  = {| columns := columns st; current := current st;
       inQuotes := negb (inQuotes st) |}.
Proof. reflexivity. Qed.

Lemma current_no_quote (line : jsstring) (st : scan) :
  ~ In QUOTE (current st) ->
  ~ In QUOTE (current (fold_left scan_char line st)).
Proof.
  revert st. induction line as [|c line IH]; intros st Hst; [exact Hst|].
  cbn [fold_left]. apply IH. unfold scan_char.
  destruct (N.eqb_spec c QUOTE) as [->|Hc]; [exact Hst|].
  destruct ((c =? COMMA)%N && negb (inQuotes st)); cbn [current].
  - intros [].
  - intros H. apply in_app_or in H as [H|[H|[]]]; [now apply Hst|].
    now apply Hc.
Qed.

(** Inside a quoted span that is never closed every code unit, commas
    included, is appended to the field being read. *)
Lemma scan_inside_quotes (rest : jsstring) (st : scan) :
  ~ In QUOTE rest -> inQuotes st = true ->
  fold_left scan_char rest st
  = {| columns := columns st; current := current st ++ rest;
       inQuotes := true |}.
Proof.
  revert st. induction rest as [|c rest IH]; intros st Hn Hq.
  - simpl. rewrite app_nil_r. destruct st. simpl in Hq. now subst.
  - cbn [fold_left]. rewrite IH.
    + unfold scan_char. destruct (N.eqb_spec c QUOTE) as [->|_].
      * destruct Hn. now left.
      * rewrite Hq, andb_false_r. cbn [columns current].
        now rewrite <- app_assoc.
    + intros H. apply Hn. now right.
    + unfold scan_char. destruct (N.eqb_spec c QUOTE) as [->|_].
      * destruct Hn. now left.
      * now rewrite Hq, andb_false_r.
Qed.

Lemma last_occurrence (c : char) (l : jsstring) :
  In c l -> exists pre rest, l = pre ++ c :: rest /\ ~ In c rest.
Proof.
  induction l as [|b l IH]; intros Hin; [contradiction|].
  destruct (in_dec N.eq_dec c l) as [Hl|Hl].
  - destruct (IH Hl) as (pre & rest & -> & Hr).
    now exists (b :: pre), rest.
  - destruct Hin as [->|Hin]; [|contradiction].
    now exists [], l.
Qed.

(** C9: in a row with an odd number of quotes, the text after the last
    quote goes whole, commas included, into the last field: the fields are
    those completed before that quote, then the trimmed text of the field
    under way followed by everything after the quote, and that last field
    holds no quote. *)
Theorem unterminated_quote_keeps_commas (line : jsstring) :
  Nat.odd (count_occ N.eq_dec line QUOTE) = true ->
  exists pre rest,
    line = pre ++ QUOTE :: rest
    /\ ~ In QUOTE rest
    /\ tokenize line
       = columns (scan_line pre)
           ++ [trim (current (scan_line pre) ++ rest)]
    /\ ~ In QUOTE (trim (current (scan_line pre) ++ rest)).
Proof.
  intros Hodd.
  assert (Hin : In QUOTE line).
  { apply (count_occ_In N.eq_dec).
    destruct (count_occ N.eq_dec line QUOTE); [discriminate|lia]. }
  destruct (last_occurrence QUOTE line Hin) as (pre & rest & -> & Hr).
  exists pre, rest. split; [reflexivity|]. split; [assumption|].
  split.
  2:{ intros H. apply In_trim, in_app_or in H as [H|H]; [|now apply Hr].
      revert H. apply current_no_quote. intros []. }
  assert (Hpre : inQuotes (scan_line pre) = false).
  { unfold scan_line. rewrite inQuotes_fold. cbn [scan_start inQuotes xorb].
    rewrite count_occ_app, count_occ_cons_eq in Hodd by reflexivity.
    rewrite (proj1 (count_occ_not_In N.eq_dec rest QUOTE) Hr) in Hodd.
    rewrite Nat.add_1_r, Nat.odd_succ, <- Nat.negb_odd in Hodd.
    now destruct (Nat.odd _). }
  unfold tokenize, scan_line at 1. rewrite fold_left_app.
  cbn [fold_left]. fold (scan_line pre). rewrite scan_char_quote.
  rewrite scan_inside_quotes; [reflexivity|assumption|].
  cbn [inQuotes]. now rewrite Hpre.
Qed.

Lemma unterminated_quote_keeps_commas_witness :
  exists pre rest,
    js "1,2," ++ QUOTE :: js "Lake, north shore,US-NY,01 Jan 2024"
    = pre ++ QUOTE :: rest
    /\ ~ In QUOTE rest
    /\ tokenize (js "1,2," ++ QUOTE :: js "Lake, north shore,US-NY,01 Jan 2024")
       = columns (scan_line pre)
           ++ [trim (current (scan_line pre) ++ rest)]
    /\ ~ In QUOTE (trim (current (scan_line pre) ++ rest)).
Proof.
  apply (unterminated_quote_keeps_commas
           (js "1,2," ++ QUOTE :: js "Lake, north shore,US-NY,01 Jan 2024")).
  reflexivity.
Defined.

Example unterminated_quote_row :
  tokenize (js "1,2," ++ QUOTE :: js "Lake, north shore,US-NY,01 Jan 2024")
  = [js "1"; js "2"; js "Lake, north shore,US-NY,01 Jan 2024"].
Proof. reflexivity. Qed.

(** ** The row loop *)

(** What a row that yields an observation looks like. *)
Lemma parseRow_Some (raw : jsstring) (o : Observation) :
  parseRow raw = Normal (Some o) ->
  (9 <= length (tokenize (trim raw)))%nat
  /\ parseEbirdDate (index (tokenize (trim raw)) 8) = Normal (Some (date o))
  /\ o = {| date := date o;
            sciName := str (nth 4 (tokenize (trim raw)) []);
            common := str (nth 3 (tokenize (trim raw)) []);
            location := remove_quotes (nth 6 (tokenize (trim raw)) []);
            region := str (nth 7 (tokenize (trim raw)) []) |}.
Proof.
  unfold parseRow. destruct (is_empty (trim raw)); [discriminate|].
  destruct (9 <=? length (tokenize (trim raw)))%nat eqn:Hlen; [|discriminate].
  apply Nat.leb_le in Hlen.
  destruct (parseEbirdDate (index (tokenize (trim raw)) 8)) as [[d|]|];
    cbn [bind]; try discriminate.
  destruct (is_empty d); [discriminate|].
  rewrite !index_nth by lia. cbn [receiver bind].
  intros H. injection H as <-. auto.
Qed.

(** No read of the loop body is past the end of the array it reads, so the
    body returns. *)
Lemma parseRow_returns (raw : jsstring) :
  exists r, parseRow raw = Normal r.
Proof.
  unfold parseRow. destruct (is_empty (trim raw)); [eauto|].
  destruct (9 <=? length (tokenize (trim raw)))%nat eqn:Hlen; [|eauto].
  apply Nat.leb_le in Hlen. rewrite !index_nth by lia.
  destruct (parseEbirdDate_returns (nth 8 (tokenize (trim raw)) []))
    as [[d|] ->]; cbn [bind receiver]; [|eauto].
  destruct (is_empty d); eauto.
Qed.

Lemma parseRow_trim (a b : jsstring) :
  trim a = trim b -> parseRow a = parseRow b.
Proof. intros E. unfold parseRow. now rewrite E. Qed.


Lemma rows_loop_In (rows : list jsstring) (acc obs : list Observation)
  (o : Observation) :
  rows_loop rows acc = Normal obs -> In o obs ->
  In o acc \/ exists raw, In raw rows /\ parseRow raw = Normal (Some o).
Proof.
  revert acc. induction rows as [|raw rows IH]; intros acc; cbn [rows_loop].
  - intros H Hin. injection H as <-. now left.
  - destruct (parseRow raw) as [[p|]|] eqn:E; cbn [bind]; [| |discriminate];
      intros H Hin; destruct (IH _ H Hin) as [Hacc|(r & Hr & Hp)].
    + apply in_app_or in Hacc. destruct Hacc as [Hacc|[<-|[]]].
      * now left.
      * right. exists raw. split; [now left|assumption].
    + right. exists r. split; [now right|assumption].
    + now left.
    + right. exists r. split; [now right|assumption].
Qed.

(** A row that yields nothing leaves the rows around it as they are. *)
Lemma rows_loop_drop (pre post : list jsstring) (bad : jsstring)
  (acc : list Observation) :
  parseRow bad = Normal None ->
  rows_loop (pre ++ bad :: post) acc = rows_loop (pre ++ post) acc.
Proof.
  intros Hbad. revert acc.
  induction pre as [|raw pre IH]; intros acc; cbn [app rows_loop].
  - now rewrite Hbad.
  - destruct (parseRow raw) as [[o|]|]; cbn [bind]; auto.
Qed.

Lemma rows_loop_ext (rows rows' : list jsstring) (acc : list Observation) :
  Forall2 (fun a b => parseRow a = parseRow b) rows rows' ->
  rows_loop rows acc = rows_loop rows' acc.
Proof.
  intros H. revert acc.
  induction H as [|a b rows rows' E _ IH]; intros acc; cbn [rows_loop].
  - reflexivity.
  - rewrite E. destruct (parseRow b) as [[o|]|]; cbn [bind]; auto.
Qed.

(** ** Sorting *)

Section Sorting.

Variable host : jsstring -> number.

Lemma insert_perm (a : Observation) (l : list Observation) :
  Permutation (insert host a l) (a :: l).
Proof.
  induction l as [|b l IH]; cbn [insert]; [reflexivity|].
  destruct (positive _); [|reflexivity].
  rewrite IH. apply perm_swap.
Qed.

(** The sorted array holds the records collected, each as often. *)
Lemma sort_perm (l : list Observation) : Permutation (sort host l) l.
Proof.
  induction l as [|a l IH]; cbn [sort]; [reflexivity|].
  rewrite insert_perm. now constructor.
Qed.

Lemma parseCSV_rows (text : jsstring) :
  parseCSV host text
  = obs <- rows_loop (skipn 1 (split LF text)) [] ;;
    Normal (sort host obs).
Proof. reflexivity. Qed.


(** Every record returned was pushed by the loop body on a line other
    than the first. *)
Lemma parseCSV_In (text : jsstring) (obs : list Observation)
  (o : Observation) :
  parseCSV host text = Normal obs -> In o obs ->
  exists raw,
    In raw (skipn 1 (split LF text)) /\ parseRow raw = Normal (Some o).
Proof.
  rewrite parseCSV_rows.
  destruct (rows_loop (skipn 1 (split LF text)) []) as [l|] eqn:E;
    cbn [bind]; [|discriminate].
  intros H Hin. injection H as <-.
  apply (Permutation_in _ (sort_perm l)) in Hin.
  destruct (rows_loop_In _ _ _ o E Hin) as [[]|H]. exact H.
Qed.

End Sorting.

(** ** The header row, line endings, determinism *)

(** C8: the first line never yields an observation: the result does not
    depend on what stands before the first line feed, and a text of one
    line, with or without a line feed after it, yields the empty array. *)
Theorem header_row_skipped (host : jsstring -> number) :
  (forall h1 h2 rest,
      ~ In LF h1 -> ~ In LF h2 ->
      parseCSV host (h1 ++ LF :: rest) = parseCSV host (h2 ++ LF :: rest))
  /\ (forall h,
         ~ In LF h ->
         parseCSV host h = Normal [] /\ parseCSV host (h ++ [LF]) = Normal []).
Proof.
  split.
  - intros h1 h2 rest H1 H2. rewrite !parseCSV_rows.
    now rewrite !split_app_sep by assumption.
  - intros h Hh. rewrite !parseCSV_rows. split.
    + now rewrite split_no_sep by assumption.
    + now rewrite split_app_sep by assumption.
Qed.

Lemma header_row_skipped_witness :
  parseCSV date_only_host
    (js "1,2,3,Robin,Turdus migratorius,5,Park,US-NY,14 Dec 2025"
       ++ LF :: js "1,2,3,Wren,Troglodytes,5,Yard,US-NY,02 Nov 2021")
  = parseCSV date_only_host
      (js "Row #,Taxon Order,Category,Common Name,Scientific Name,Count,Location,S/P,Date"
         ++ LF :: js "1,2,3,Wren,Troglodytes,5,Yard,US-NY,02 Nov 2021")
  /\ parseCSV date_only_host
       (js "1,2,3,Robin,Turdus migratorius,5,Park,US-NY,14 Dec 2025")
     = Normal []
  /\ parseCSV date_only_host
       (js "1,2,3,Robin,Turdus migratorius,5,Park,US-NY,14 Dec 2025" ++ [LF])
     = Normal [].
Proof.
  split.
  - apply (proj1 (header_row_skipped date_only_host)); vm_compute;
      intuition discriminate.
  - apply (proj2 (header_row_skipped date_only_host)
             (js "1,2,3,Robin,Turdus migratorius,5,Park,US-NY,14 Dec 2025")).
    vm_compute. intuition discriminate.
Defined.

Lemma split_crlf (text : jsstring) :
  Forall2 (fun a b => a = b \/ a = b ++ [CR])
    (split LF (lf_to_crlf text)) (split LF text).
Proof.
  induction text as [|c text IH].
  - repeat constructor.
  - unfold lf_to_crlf in *. cbn [flat_map split].
    destruct (N.eqb_spec c LF) as [->|Hc].
    + cbn [app split N.eqb Pos.eqb CR LF]. constructor; [now right|exact IH].
    + cbn [app split]. apply N.eqb_neq in Hc. rewrite Hc.
      destruct IH as [|p p' ps ps' Hp IH].
      * constructor; [now left|constructor].
      * constructor; [|exact IH]. destruct Hp as [->| ->]; [now left|now right].
Qed.

Lemma trim_cr (a b : jsstring) :
  a = b \/ a = b ++ [CR] -> parseRow a = parseRow b.
Proof.
  intros [->| ->]; [reflexivity|]. apply parseRow_trim.
  now apply trim_snoc_ws.
Qed.

(** C10: replacing every line feed of the text by carriage return, line
    feed leaves the observations unchanged: the lines are those between
    line feeds, and the carriage return left at the end of each is white
    space that the trim of the line removes. *)
Theorem crlf_same_observations (host : jsstring -> number)
  (text : jsstring) :
  parseCSV host (lf_to_crlf text) = parseCSV host text.
Proof.
  rewrite !parseCSV_rows. f_equal. apply rows_loop_ext.
  destruct (split_crlf text) as [|a b l l' _ H]; cbn [skipn].
  - constructor.
  - eapply Forall2_impl; [|exact H]. apply trim_cr.
Qed.

Example crlf_text :
  lf_to_crlf (js "h" ++ LF :: js "a,b" ++ [LF])
  = js "h" ++ CR :: LF :: js "a,b" ++ [CR; LF].
Proof. reflexivity. Qed.


(** ** No exception *)


Lemma parseRow_malformed (bad : jsstring) :
  (length (tokenize (trim bad)) < 9)%nat
  \/ parseEbirdDate (index (tokenize (trim bad)) 8) = Normal None ->
  parseRow bad = Normal None.
Proof.
  intros H. unfold parseRow. destruct (is_empty (trim bad)); [reflexivity|].
  destruct (Nat.leb_spec 9 (length (tokenize (trim bad)))); [|reflexivity].
  destruct H as [H|H]; [lia|now rewrite H].
Qed.



(** ** The form of the dates *)

Lemma str_eqb_eq (s t : jsstring) : str_eqb s t = true -> s = t.
Proof.
  revert t. induction s as [|c s IH]; intros [|d t]; simpl;
    try discriminate; [reflexivity|].
  intros H. apply andb_prop in H as [Hc Hs].
  apply N.eqb_eq in Hc. subst. f_equal. now apply IH.
Qed.

Lemma assoc_In {B : Type} (key : jsstring) (table : list (jsstring * B))
  (b : B) :
  assoc key table = Some b -> In (key, b) table.
Proof.
  induction table as [|[k v] table IH]; simpl; [discriminate|].
  destruct (str_eqb key k) eqn:E.
  - intros H. injection H as ->. apply str_eqb_eq in E. subst. now left.
  - intros H. right. now apply IH.
Qed.

Lemma months_key_no_space (m mm : jsstring) :
  assoc m months = Some mm -> ~ In SPACE m.
Proof.
  intros H. apply assoc_In in H. unfold months in H. cbn [In] in H.
  repeat (destruct H as [H|H];
          [injection H as <- _; vm_compute; intuition discriminate|]).
  contradiction.
Qed.

Lemma digit_not_ws (c : char) :
  is_digit c = true -> is_white_space c = false.
Proof.
  unfold is_digit, is_white_space. intros H.
  apply andb_prop in H as [H1 H2].
  apply N.leb_le in H1. apply N.leb_le in H2.
  repeat match goal with
         | |- context [(?a <=? ?b)%N] => destruct (N.leb_spec a b)
         | |- context [(?a =? ?b)%N] => destruct (N.eqb_spec a b)
         end; try reflexivity; lia.
Qed.

Lemma digits_no_space (l : jsstring) :
  forallb is_digit l = true -> ~ In SPACE l.
Proof.
  intros H Hin. rewrite forallb_forall in H. specialize (H _ Hin).
  discriminate H.
Qed.

Lemma trim_end_app (s t : jsstring) :
  t <> [] -> trim_end t = t -> trim_end (s ++ t) = s ++ t.
Proof.
  intros Hne Ht. induction s as [|c s IH]; [exact Ht|].
  cbn [app trim_end]. rewrite IH. destruct (s ++ t) eqn:E; [|reflexivity].
  apply app_eq_nil in E as [_ E]. contradiction.
Qed.

Lemma digit_value_digit (c : char) :
  is_digit c = true -> digit_value c = Some (Z.of_N c - 48)%Z.
Proof. intros H. unfold digit_value. now rewrite H. Qed.

(** The date text of an export normalizes, to a string of ten code units
    of the form [YYYY-MM-DD]. *)
Lemma ebird_date_text_normalizes (s : jsstring) :
  ebird_date_text s ->
  exists r,
    parseEbirdDate (str s) = Normal (Some r)
    /\ iso_date_shape r = true /\ length r = 10%nat.
Proof.
  intros (d & m & y & -> & Hd & Hdl & Hm & Hy & Hyl).
  destruct (assoc m months) as [mm|] eqn:Emm; [clear Hm|contradiction].
  destruct y as [|y1 [|y2 [|y3 [|y4 [|]]]]]; try discriminate Hyl.
  cbn [forallb] in Hy.
  apply andb_prop in Hy as [Hy1 Hy]. apply andb_prop in Hy as [Hy2 Hy].
  apply andb_prop in Hy as [Hy3 Hy]. apply andb_prop in Hy as [Hy4 _].
  assert (Hsplit : split SPACE (trim (d ++ SPACE :: m ++ SPACE :: [y1; y2; y3; y4]))
                   = [d; m; [y1; y2; y3; y4]]).
  { assert (Htrim : trim (d ++ SPACE :: m ++ SPACE :: [y1; y2; y3; y4])
                    = d ++ SPACE :: m ++ SPACE :: [y1; y2; y3; y4]).
    { unfold trim. destruct d as [|d1 d']; [simpl in Hdl; lia|].
      cbn [forallb] in Hd. apply andb_prop in Hd as [Hd1 _].
      cbn [app trim_start]. rewrite (digit_not_ws d1 Hd1).
      apply (trim_end_app (d1 :: d') (SPACE :: m ++ SPACE :: [y1; y2; y3; y4]));
        [discriminate|].
      apply (trim_end_app (SPACE :: m) (SPACE :: [y1; y2; y3; y4]));
        [discriminate|].
      apply (trim_end_snoc [SPACE; y1; y2; y3] y4).
      now apply digit_not_ws. }
    rewrite Htrim.
    rewrite split_app_sep by now apply digits_no_space.
    rewrite split_app_sep by exact (months_key_no_space m mm Emm).
    rewrite split_no_sep; [reflexivity|].
    apply digits_no_space. cbn [forallb]. now rewrite Hy1, Hy2, Hy3, Hy4. }
  eexists. split.
  - exact (parseEbirdDate_month _ d m _ mm Hsplit Emm).
  - destruct (months_values m mm Emm) as (a & b & -> & Ha & Hb & Hab).
    assert (Hpad : exists d1 d2, padStart2 d = [d1; d2]
                                 /\ is_digit d1 = true /\ is_digit d2 = true).
    { destruct d as [|d1 [|d2 [|]]]; simpl in Hdl; try lia; cbn [forallb] in Hd.
      - apply andb_prop in Hd as [Hd1 _]. now exists 48%N, d1.
      - apply andb_prop in Hd as [Hd1 Hd]. apply andb_prop in Hd as [Hd2 _].
        now exists d1, d2. }
    destruct Hpad as (d1 & d2 & -> & Hd1 & Hd2).
    split; [|reflexivity].
    assert (Ha' : is_digit (48 + a) = true).
    { unfold is_digit. apply andb_true_intro.
      split; apply N.leb_le; lia. }
    assert (Hb' : is_digit (48 + b) = true).
    { unfold is_digit. apply andb_true_intro.
      split; apply N.leb_le; lia. }
    unfold iso_date_shape. cbn [app js List.map list_ascii_of_string
                                 N_of_ascii N_of_digits iso_date_fields].
    change (N_of_ascii "-") with 45%N. cbn [N.eqb Pos.eqb andb].
    rewrite !digit_value_digit by assumption.
    apply andb_true_intro. split; apply Z.leb_le; lia.
Qed.

(** C3, as the code has it: every record returned comes from a line other
    than the first whose ninth field normalized, and carries the result as
    its date; when that field is a date text of an export (day of one or
    two digits, month abbreviation, year of four digits, one space apart)
    the date is a string of ten code units of the form [YYYY-MM-DD].  The
    normalizer checks neither the day nor the year, so other fields give
    other strings. *)
Theorem observation_dates (host : jsstring -> number) (text : jsstring)
  (obs : list Observation) (o : Observation) :
  parseCSV host text = Normal obs -> In o obs ->
  exists raw field8,
    In raw (skipn 1 (split LF text))
    /\ index (tokenize (trim raw)) 8 = str field8
    /\ parseEbirdDate (str field8) = Normal (Some (date o))
    /\ (ebird_date_text field8 ->
        iso_date_shape (date o) = true /\ length (date o) = 10%nat).
Proof.
  intros E Hin.
  destruct (parseCSV_In host text obs o E Hin) as (raw & Hraw & Hrow).
  destruct (parseRow_Some raw o Hrow) as (Hlen & Hdate & _).
  rewrite index_nth in Hdate by lia.
  exists raw, (nth 8 (tokenize (trim raw)) []).
  split; [exact Hraw|]. split; [apply index_nth; lia|].
  split; [exact Hdate|].
  intros Htext.
  destruct (ebird_date_text_normalizes _ Htext) as (r & Hr & Hshape & Hlen').
  rewrite Hdate in Hr. injection Hr as <-. now split.
Qed.

Lemma observation_dates_witness :
  exists raw field8,
    In raw (skipn 1 (split LF
              (js "h" ++ LF :: js "1,2,3,Robin,Turdus migratorius,5,Park,US-NY,14 Dec 2025")))
    /\ index (tokenize (trim raw)) 8 = str field8
    /\ parseEbirdDate (str field8) = Normal (Some (js "2025-12-14"))
    /\ (ebird_date_text field8 ->
        iso_date_shape (js "2025-12-14") = true
        /\ length (js "2025-12-14") = 10%nat).
Proof.
  apply (observation_dates date_only_host
           (js "h" ++ LF :: js "1,2,3,Robin,Turdus migratorius,5,Park,US-NY,14 Dec 2025")
           [ {| date := js "2025-12-14";
                sciName := str (js "Turdus migratorius");
                common := str (js "Robin");
                location := js "Park";
                region := str (js "US-NY") |} ]
           {| date := js "2025-12-14";
              sciName := str (js "Turdus migratorius");
              common := str (js "Robin");
              location := js "Park";
              region := str (js "US-NY") |}).
  - reflexivity.
  - left. reflexivity.
Defined.

(** C3 as stated fails: the year of the date text goes into the date as it
    is, so a year of two digits gives a date of eight code units. *)
Lemma short_year_date :
  (forall host,
      parseCSV host
        (js "h" ++ LF :: js "1,2,3,Robin,Turdus migratorius,5,Park,US-NY,5 Jan 20")
      = Normal [ {| date := js "20-01-05";
                    sciName := str (js "Turdus migratorius");
                    common := str (js "Robin");
                    location := js "Park";
                    region := str (js "US-NY") |} ])
  /\ iso_date_shape (js "20-01-05") = false
  /\ length (js "20-01-05") = 8%nat.
Proof. repeat split. Qed.

(** ** The calendar *)

Lemma DayFromYear_next (y : Z) :
  (DayFromYear (y + 1)
   = DayFromYear y + (if is_leap y then 366 else 365))%Z.
Proof.
  unfold DayFromYear, is_leap.
  destruct (Z.eqb_spec (y mod 4) 0), (Z.eqb_spec (y mod 100) 0),
    (Z.eqb_spec (y mod 400) 0); cbn [andb orb negb];
    Z.div_mod_to_equations; lia.
Qed.

Lemma DayFromYear_mono (y y' : Z) :
  (y <= y')%Z -> (DayFromYear y <= DayFromYear y')%Z.
Proof. unfold DayFromYear. intros H. Z.div_mod_to_equations. lia. Qed.

Ltac month_cases m :=
  let H := fresh in
  assert (H : (m = 1 \/ m = 2 \/ m = 3 \/ m = 4 \/ m = 5 \/ m = 6 \/ m = 7
               \/ m = 8 \/ m = 9 \/ m = 10 \/ m = 11 \/ m = 12)%Z) by lia;
  destruct H as [H|[H|[H|[H|[H|[H|[H|[H|[H|[H|[H|H]]]]]]]]]]]; subst m.

Lemma days_in_year (y m : Z) :
  (1 <= m <= 12)%Z ->
  (0 <= days_before_month y m
   /\ days_before_month y m + days_in_month y m
      <= (if is_leap y then 366 else 365))%Z.
Proof.
  intros Hm. unfold days_before_month, days_in_month.
  month_cases m; destruct (is_leap y); cbn; lia.
Qed.

Lemma days_before_later_month (y m m' : Z) :
  (1 <= m)%Z -> (m < m')%Z -> (m' <= 12)%Z ->
  (days_before_month y m + days_in_month y m <= days_before_month y m')%Z.
Proof.
  intros H1 H2 H3. unfold days_before_month, days_in_month.
  month_cases m; month_cases m'; try lia; destruct (is_leap y); cbn; lia.
Qed.

Lemma days_in_month_le_31 (y m : Z) : (days_in_month y m <= 31)%Z.
Proof.
  unfold days_in_month.
  destruct (m =? 2)%Z; [destruct (is_leap y); lia|].
  destruct ((m =? 4) || (m =? 6) || (m =? 9) || (m =? 11))%Z; lia.
Qed.

Lemma MakeDay_earlier (y m d y' m' d' : Z) :
  (1 <= m <= 12)%Z -> (1 <= d <= days_in_month y m)%Z ->
  (1 <= m' <= 12)%Z -> (1 <= d' <= days_in_month y' m')%Z ->
  earlier (y, m, d) (y', m', d') ->
  (MakeDay y m d < MakeDay y' m' d')%Z.
Proof.
  intros Hm Hd Hm' Hd' He. unfold MakeDay.
  pose proof (days_in_year y m Hm) as [_ Hy].
  pose proof (days_in_year y' m' Hm') as [Hy' _].
  destruct He as [Hlt|[-> [Hlt|[-> Hlt]]]].
  - pose proof (DayFromYear_next y) as Hn.
    pose proof (DayFromYear_mono (y + 1) y' ltac:(lia)) as Hmono.
    destruct (is_leap y); lia.
  - pose proof (days_before_later_month y' m m' ltac:(lia) Hlt ltac:(lia)).
    lia.
  - lia.
Qed.

(** ** The order of the dates *)

Lemma is_digit_bounds (c : char) :
  is_digit c = true -> (48 <= c <= 57)%N.
Proof.
  unfold is_digit. intros H. apply andb_prop in H as [H1 H2].
  apply N.leb_le in H1. apply N.leb_le in H2. lia.
Qed.

Lemma digit_value_Some (c : char) (v : Z) :
  digit_value c = Some v -> (48 <= c <= 57)%N /\ v = (Z.of_N c - 48)%Z.
Proof.
  unfold digit_value. destruct (is_digit c) eqn:E; [|discriminate].
  intros H. injection H as <-. split; [now apply is_digit_bounds|reflexivity].
Qed.

#[local] Opaque Z.mul Z.add Z.sub Z.of_N.

(** The strings of the form [YYYY-MM-DD] are ordered as the days they
    name: one that is not below another names a later day. *)
Lemma iso_date_order (s t : jsstring) (y m d y' m' d' : Z) :
  iso_date_fields s = Some (y, m, d) ->
  iso_date_fields t = Some (y', m', d') ->
  str_leb s t = false ->
  earlier (y', m', d') (y, m, d).
Proof.
  intros Hs Ht Hle.
  destruct s as [|a1 [|a2 [|a3 [|a4 [|a5 [|a6 [|a7 [|a8 [|a9 [|a10 [|]]]]]]]]]]];
    try discriminate Hs.
  destruct t as [|b1 [|b2 [|b3 [|b4 [|b5 [|b6 [|b7 [|b8 [|b9 [|b10 [|]]]]]]]]]]];
    try discriminate Ht.
  cbn [iso_date_fields] in Hs, Ht.
  destruct (N.eqb_spec a5 45); [|discriminate Hs].
  destruct (N.eqb_spec a8 45); [|discriminate Hs].
  destruct (N.eqb_spec b5 45); [|discriminate Ht].
  destruct (N.eqb_spec b8 45); [|discriminate Ht].
  cbn [andb] in Hs, Ht. subst a5 a8 b5 b8.
  destruct (digit_value a1) as [x1|] eqn:A1; [|discriminate Hs].
  destruct (digit_value a2) as [x2|] eqn:A2; [|discriminate Hs].
  destruct (digit_value a3) as [x3|] eqn:A3; [|discriminate Hs].
  destruct (digit_value a4) as [x4|] eqn:A4; [|discriminate Hs].
  destruct (digit_value a6) as [x6|] eqn:A6; [|discriminate Hs].
  destruct (digit_value a7) as [x7|] eqn:A7; [|discriminate Hs].
  destruct (digit_value a9) as [x9|] eqn:A9; [|discriminate Hs].
  destruct (digit_value a10) as [x10|] eqn:A10; [|discriminate Hs].
  destruct (digit_value b1) as [z1|] eqn:B1; [|discriminate Ht].
  destruct (digit_value b2) as [z2|] eqn:B2; [|discriminate Ht].
  destruct (digit_value b3) as [z3|] eqn:B3; [|discriminate Ht].
  destruct (digit_value b4) as [z4|] eqn:B4; [|discriminate Ht].
  destruct (digit_value b6) as [z6|] eqn:B6; [|discriminate Ht].
  destruct (digit_value b7) as [z7|] eqn:B7; [|discriminate Ht].
  destruct (digit_value b9) as [z9|] eqn:B9; [|discriminate Ht].
  destruct (digit_value b10) as [z10|] eqn:B10; [|discriminate Ht].
  injection Hs as <- <- <-. injection Ht as <- <- <-.
  apply digit_value_Some in A1, A2, A3, A4, A6, A7, A9, A10,
    B1, B2, B3, B4, B6, B7, B9, B10.
  unfold earlier. cbn [str_leb] in Hle.
  repeat match type of Hle with
         | (if (?a <? ?b)%N then _ else _) = _ =>
             destruct (N.ltb_spec a b); [discriminate Hle|]
         | (if (?a =? ?b)%N then _ else _) = _ =>
             destruct (N.eqb_spec a b); [|lia]
         end.
  discriminate Hle.
Qed.

#[local] Transparent Z.mul Z.add Z.sub Z.of_N.

Section Order.

Variable host : jsstring -> number.

Lemma Date_parse_valid (s : jsstring) :
  valid_iso_date s = true ->
  exists y m d,
    iso_date_fields s = Some (y, m, d)
    /\ (1 <= m <= 12)%Z /\ (1 <= d <= days_in_month y m)%Z
    /\ Date_parse host s = Some (msPerDay * MakeDay y m d)%Z.
Proof.
  unfold valid_iso_date, Date_parse.
  destruct (iso_date_fields s) as [[[y m] d]|]; [|discriminate].
  intros H. repeat (apply andb_prop in H as [H ?]).
  repeat match goal with H : (_ <=? _)%Z = true |- _ =>
                           apply Z.leb_le in H end.
  exists y, m, d. repeat split; try assumption.
  pose proof (days_in_month_le_31 y m).
  replace ((1 <=? m) && (m <=? 12) && (1 <=? d) && (d <=? 31))%Z
    with true; [reflexivity|].
  symmetry. repeat (apply andb_true_intro; split); apply Z.leb_le; lia.
Qed.

(** On dates of the calendar the comparator orders as the strings do. *)
Lemma valid_dates_order (s t : jsstring) (x x' : Z) :
  valid_iso_date s = true -> valid_iso_date t = true ->
  Date_parse host s = Some x -> Date_parse host t = Some x' ->
  (x <= x')%Z -> str_leb s t = true.
Proof.
  intros Hs Ht Hx Hx' Hle.
  destruct (Date_parse_valid s Hs) as (y & m & d & Es & Hm & Hd & Ex).
  destruct (Date_parse_valid t Ht) as (y' & m' & d' & Et & Hm' & Hd' & Ex').
  assert (x = msPerDay * MakeDay y m d)%Z by congruence.
  assert (x' = msPerDay * MakeDay y' m' d')%Z by congruence.
  subst x x'.
  destruct (str_leb s t) eqn:E; [reflexivity|].
  pose proof (iso_date_order s t y m d y' m' d' Es Et E) as He.
  pose proof (MakeDay_earlier y' m' d' y m d Hm' Hd' Hm Hd He).
  unfold msPerDay in Hle. lia.
Qed.

Abbreviation time_le := (time_le host).
Abbreviation has_time := (has_time host).

Lemma time_le_trans (a b c : Observation) :
  time_le a b -> time_le b c -> time_le a c.
Proof.
  intros (x & y & Hx & Hy & Hxy) (y' & z & Hy' & Hz & Hyz).
  rewrite Hy in Hy'. injection Hy' as <-.
  exists x, z. repeat split; try assumption. lia.
Qed.

Lemma HdRel_insert (a b : Observation) (l : list Observation) :
  HdRel time_le b l -> time_le b a -> HdRel time_le b (insert host a l).
Proof.
  intros Hl Hba. destruct l as [|c l]; cbn [insert].
  - now constructor.
  - destruct (positive _); constructor; [now inversion Hl|assumption].
Qed.

Lemma insert_sorted (a : Observation) (l : list Observation) :
  has_time a -> Forall has_time l ->
  Sorted time_le l -> Sorted time_le (insert host a l).
Proof.
  intros [x Hx] Hall Hs. induction l as [|b l IH]; cbn [insert].
  - repeat constructor.
  - inversion Hall as [|? ? [y Hy] Hall']; subst.
    inversion Hs as [|? ? Hs' Hhd]; subst.
    unfold compare_dates. rewrite Hx, Hy. cbn [positive].
    destruct (Z.ltb_spec 0 (x - y)).
    + constructor; [now apply IH|].
      apply HdRel_insert; [assumption|].
      exists y, x. repeat split; try assumption. lia.
    + constructor; [assumption|]. constructor.
      exists x, y. repeat split; try assumption. lia.
Qed.

Lemma sort_sorted (l : list Observation) :
  Forall has_time l -> Sorted time_le (sort host l).
Proof.
  induction l as [|a l IH]; intros Hall; cbn [sort]; [constructor|].
  inversion Hall as [|? ? Ha Hl]; subst.
  apply insert_sorted; [assumption| |now apply IH].
  apply (Permutation_Forall (Permutation_sym (sort_perm host l)) Hl).
Qed.

Lemma StronglySorted_weaken (P : Observation -> Prop)
  (R R' : Observation -> Observation -> Prop) (l : list Observation) :
  (forall a b, P a -> P b -> R a b -> R' a b) ->
  Forall P l -> StronglySorted R l -> StronglySorted R' l.
Proof.
  intros Himp Hall Hs. induction Hs as [|a l Hs IH Ha]; [constructor|].
  inversion Hall as [|? ? Pa Pl]; subst.
  constructor; [now apply IH|].
  rewrite Forall_forall in *. intros b Hb. apply Himp; auto.
Qed.

End Order.

Lemma valid_has_time (host : jsstring -> number) (o : Observation) :
  valid_iso_date (date o) = true -> has_time host o.
Proof.
  intros H. destruct (Date_parse_valid host (date o) H) as (y & m & d & H').
  exists (msPerDay * MakeDay y m d)%Z. apply H'.
Qed.

Lemma sort_valid_dates (host : jsstring -> number) (l : list Observation) :
  Forall (fun o => valid_iso_date (date o) = true) (sort host l) ->
  StronglySorted date_le (sort host l).
Proof.
  intros Hvalid.
  assert (Htime : Forall (has_time host) l).
  { apply (Permutation_Forall (sort_perm host l)).
    eapply Forall_impl; [|exact Hvalid]. apply valid_has_time. }
  apply (StronglySorted_weaken
           (fun o => valid_iso_date (date o) = true) (time_le host) date_le).
  - intros a b Ha Hb (x & y & Hx & Hy & Hxy).
    exact (valid_dates_order host (date a) (date b) x y Ha Hb Hx Hy Hxy).
  - exact Hvalid.
  - apply Sorted_StronglySorted.
    + intros a b c. apply time_le_trans.
    + now apply sort_sorted.
Qed.

(** C4, as the code has it: the comparator orders by the time value of the
    dates, so when every date returned is a day of the calendar in the form
    [YYYY-MM-DD] the records are in ascending order of their date strings;
    two rows with the dates 2023-05-10 and 2021-11-02, in that order, come
    out with 2021-11-02 first. *)
Theorem parseCSV_sorted_by_date (host : jsstring -> number) :
  (forall text obs,
      parseCSV host text = Normal obs ->
      Forall (fun o => valid_iso_date (date o) = true) obs ->
      StronglySorted date_le obs)
  /\ (forall header r1 r2 o1 o2,
         ~ In LF header -> ~ In LF r1 -> ~ In LF r2 ->
         parseRow r1 = Normal (Some o1) -> date o1 = js "2023-05-10" ->
         parseRow r2 = Normal (Some o2) -> date o2 = js "2021-11-02" ->
         parseCSV host (join LF [header; r1; r2]) = Normal [o2; o1]).
Proof.
  split.
  - intros text obs. rewrite parseCSV_rows.
    destruct (rows_loop (skipn 1 (split LF text)) []) as [l|];
      cbn [bind]; [|discriminate].
    intros H. injection H as <-. apply sort_valid_dates.
  - intros header r1 r2 o1 o2 Hh H1 H2 E1 D1 E2 D2.
    rewrite parseCSV_rows, split_join; [|discriminate|now repeat constructor].
    cbn [skipn rows_loop]. rewrite E1. cbn [bind]. rewrite E2.
    cbn [bind app sort insert]. unfold compare_dates. now rewrite D1, D2.
Qed.

Lemma parseCSV_sorted_by_date_witness :
  StronglySorted date_le
    [ {| date := js "2021-11-02"; sciName := str (js "Troglodytes");
         common := str (js "Wren"); location := js "Yard";
         region := str (js "US-NY") |};
      {| date := js "2023-05-10"; sciName := str (js "Turdus migratorius");
         common := str (js "Robin"); location := js "Park";
         region := str (js "US-NY") |} ]
  /\ parseCSV date_only_host
       (join LF [js "header";
                 js "1,2,3,Robin,Turdus migratorius,5,Park,US-NY,10 May 2023";
                 js "1,2,3,Wren,Troglodytes,5,Yard,US-NY,2 Nov 2021"])
     = Normal
         [ {| date := js "2021-11-02"; sciName := str (js "Troglodytes");
              common := str (js "Wren"); location := js "Yard";
              region := str (js "US-NY") |};
           {| date := js "2023-05-10"; sciName := str (js "Turdus migratorius");
              common := str (js "Robin"); location := js "Park";
              region := str (js "US-NY") |} ].
Proof.
  split.
  - apply (proj1 (parseCSV_sorted_by_date date_only_host)
             (join LF [js "header";
                       js "1,2,3,Robin,Turdus migratorius,5,Park,US-NY,10 May 2023";
                       js "1,2,3,Wren,Troglodytes,5,Yard,US-NY,2 Nov 2021"])).
    + reflexivity.
    + repeat constructor.
  - apply (proj2 (parseCSV_sorted_by_date date_only_host)); try reflexivity;
      vm_compute; intuition discriminate.
Defined.

(** C4 as stated fails: a day of 99 is accepted by the normalizer and gives
    a date that [Date] does not parse, the comparator is NaN on it, and the
    two records stay in the order of the rows, the later string first. *)
Lemma unsorted_invalid_day :
  (forall host,
      parseCSV host
        (join LF [js "header";
                  js "1,2,3,Robin,Turdus migratorius,5,Park,US-NY,99 Jan 2020";
                  js "1,2,3,Wren,Troglodytes,5,Yard,US-NY,01 Jan 2019"])
      = Normal
          [ {| date := js "2020-01-99"; sciName := str (js "Turdus migratorius");
               common := str (js "Robin"); location := js "Park";
               region := str (js "US-NY") |};
            {| date := js "2019-01-01"; sciName := str (js "Troglodytes");
               common := str (js "Wren"); location := js "Yard";
               region := str (js "US-NY") |} ])
  /\ str_leb (js "2020-01-99") (js "2019-01-01") = false.
Proof. repeat split. Qed.

Example ordering_scenario :
  forall host,
    fmap (List.map date)
      (parseCSV host
         (join LF [js "header";
                   js "1,2,3,Robin,Turdus migratorius,5,Park,US-NY,10 May 2023";
                   js "1,2,3,Wren,Troglodytes,5,Yard,US-NY,02 Nov 2021"]))
    = Normal [js "2021-11-02"; js "2023-05-10"].
Proof. reflexivity. Qed.

(** * Further properties of the code *)

(** ** The tokenizer without quotes, and with quoted fields *)

Lemma split_not_nil (sep : char) (s : jsstring) : split sep s <> [].
Proof.
  destruct s as [|c s]; simpl; [discriminate|].
  destruct (c =? sep)%N; [discriminate|].
  destruct (split sep s); discriminate.
Qed.

Lemma scan_no_quotes (line : jsstring) :
  forall (st : scan) (p : jsstring) (ps : list jsstring),
    ~ In QUOTE line -> inQuotes st = false ->
    split COMMA line = p :: ps ->
    finish (fold_left scan_char line st)
    = columns st ++ trim (current st ++ p) :: List.map trim ps.
Proof.
  induction line as [|c line IH]; intros st p ps Hq Hin Hsplit.
  - cbn in Hsplit. injection Hsplit as <- <-. cbn [fold_left List.map].
    now rewrite app_nil_r.
  - cbn [fold_left]. cbn [split] in Hsplit.
    assert (Hc : (c =? QUOTE)%N = false).
    { apply N.eqb_neq. intros ->. apply Hq. now left. }
    assert (Hq' : ~ In QUOTE line) by (intros H; apply Hq; now right).
    destruct (split COMMA line) as [|q qs] eqn:E;
      [now destruct (split_not_nil COMMA line)|].
    unfold scan_char at 2. rewrite Hc, Hin.
    destruct (c =? COMMA)%N; cbn [andb negb].
    + injection Hsplit as <- <-.
      rewrite (IH {| columns := columns st ++ [trim (current st)];
                     current := []; inQuotes := false |}
                  q qs Hq' eq_refl eq_refl).
      cbn [columns current app]. now rewrite app_nil_r, <- app_assoc.
    + injection Hsplit as <- <-.
      rewrite (IH {| columns := columns st; current := current st ++ [c];
                     inQuotes := false |}
                  q qs Hq' eq_refl eq_refl).
      cbn [columns current]. now rewrite <- app_assoc.
Qed.

(** X1: on a line without quotes the tokenizer is [split(',')] followed by
    the trim of every part. *)
Theorem tokenize_without_quotes (line : jsstring) :
  ~ In QUOTE line -> tokenize line = List.map trim (split COMMA line).
Proof.
  intros Hq. unfold tokenize, scan_line.
  destruct (split COMMA line) as [|p ps] eqn:E;
    [now destruct (split_not_nil COMMA line)|].
  now rewrite (scan_no_quotes line scan_start p ps Hq eq_refl E).
Qed.

Lemma tokenize_without_quotes_witness :
  tokenize (js " Robin , Turdus migratorius,,US-NY ")
  = List.map trim (split COMMA (js " Robin , Turdus migratorius,,US-NY ")).
Proof.
  apply (tokenize_without_quotes (js " Robin , Turdus migratorius,,US-NY ")).
  vm_compute. intuition discriminate.
Defined.

Lemma scan_quoted (f : jsstring) (st : scan) :
  ~ In QUOTE f -> inQuotes st = false ->
  fold_left scan_char (quoted f) st
  = {| columns := columns st; current := current st ++ f;
       inQuotes := false |}.
Proof.
  intros Hf Hin. unfold quoted. cbn [fold_left]. rewrite fold_left_app.
  cbn [fold_left].
  rewrite (scan_inside_quotes f (scan_char st QUOTE) Hf);
    [|rewrite scan_char_quote; cbn [inQuotes]; now rewrite Hin].
  now rewrite !scan_char_quote.
Qed.

Lemma scan_quoted_fields (fs : list jsstring) :
  forall st : scan,
    fs <> [] -> Forall (fun f => ~ In QUOTE f) fs ->
    inQuotes st = false -> current st = [] ->
    finish (fold_left scan_char (join COMMA (List.map quoted fs)) st)
    = columns st ++ List.map trim fs.
Proof.
  induction fs as [|f fs IH]; intros st Hne Hall Hin Hcur; [contradiction|].
  inversion Hall as [|? ? Hf Hfs]; subst.
  destruct fs as [|g fs].
  - cbn [List.map join]. rewrite scan_quoted by assumption.
    unfold finish. cbn [columns current]. now rewrite Hcur.
  - change (join COMMA (List.map quoted (f :: g :: fs)))
      with (quoted f ++ COMMA :: join COMMA (List.map quoted (g :: fs))).
    rewrite fold_left_app, scan_quoted by assumption.
    cbn [fold_left]. unfold scan_char at 2.
    cbn [inQuotes columns current N.eqb COMMA QUOTE Pos.eqb andb negb].
    rewrite IH; try reflexivity; try assumption; [|discriminate].
    cbn [columns List.map]. now rewrite Hcur, <- app_assoc.
Qed.

(** X2: a row written with every field between quotes reads back as the
    fields, trimmed, whatever commas they hold. *)
Theorem tokenize_quoted_fields (fs : list jsstring) :
  fs <> [] -> Forall (fun f => ~ In QUOTE f) fs ->
  tokenize (join COMMA (List.map quoted fs)) = List.map trim fs.
Proof.
  intros Hne Hall. unfold tokenize, scan_line.
  now rewrite scan_quoted_fields.
Qed.

Lemma tokenize_quoted_fields_witness :
  tokenize (join COMMA (List.map quoted
                          [js "Robin"; js "Forest, Lake"; js "US-NY"]))
  = List.map trim [js "Robin"; js "Forest, Lake"; js "US-NY"].
Proof.
  apply (tokenize_quoted_fields [js "Robin"; js "Forest, Lake"; js "US-NY"]).
  - discriminate.
  - repeat constructor; vm_compute; intuition discriminate.
Defined.

Lemma scan_quote_twice (st : scan) :
  scan_char (scan_char st QUOTE) QUOTE = st.
Proof.
  rewrite !scan_char_quote. destruct st as [cols cur q]. cbn.
  now rewrite negb_involutive.
Qed.

(** X3: two quotes in a row leave no trace: the tokenizer has no escape for
    a quote inside a field, the pair is dropped. *)
Theorem tokenize_doubled_quote (a b : jsstring) :
  tokenize (a ++ QUOTE :: QUOTE :: b) = tokenize (a ++ b).
Proof.
  unfold tokenize, scan_line. rewrite !fold_left_app. cbn [fold_left].
  now rewrite scan_quote_twice.
Qed.

Lemma scan_no_quote_kept (line : jsstring) (st : scan) :
  Forall (fun f => ~ In QUOTE f) (columns st) -> ~ In QUOTE (current st) ->
  Forall (fun f => ~ In QUOTE f) (finish (fold_left scan_char line st)).
Proof.
  revert st. induction line as [|c line IH]; intros st Hcols Hcur.
  - unfold finish. cbn [fold_left]. apply Forall_app. split; [assumption|].
    constructor; [|constructor]. intros H. now apply In_trim in H.
  - cbn [fold_left]. apply IH; unfold scan_char;
      destruct (N.eqb_spec c QUOTE) as [->|Hc]; try assumption;
      destruct ((c =? COMMA)%N && negb (inQuotes st));
      cbn [columns current]; try assumption.
    + apply Forall_app. split; [assumption|].
      constructor; [|constructor]. intros H. now apply In_trim in H.
    + intros [].
    + intros H. apply in_app_or in H as [H|[H|[]]]; [now apply Hcur|].
      now apply Hc.
Qed.

Lemma tokenize_no_quote (line : jsstring) :
  Forall (fun f => ~ In QUOTE f) (tokenize line).
Proof.
  apply scan_no_quote_kept; [constructor|intros []].
Qed.

Lemma remove_quotes_none (f : jsstring) :
  ~ In QUOTE f -> remove_quotes f = f.
Proof.
  intros H. unfold remove_quotes. induction f as [|c f IH]; [reflexivity|].
  cbn [filter]. destruct (N.eqb_spec c QUOTE) as [->|_].
  - destruct H. now left.
  - cbn [negb]. f_equal. apply IH. intros Hin. apply H. now right.
Qed.

(** X4: no field of the tokenizer holds a quote, so the [replace] on the
    location removes nothing: the location of a record is field 6 as
    tokenized, and holds no quote. *)
Theorem location_is_field_6 (raw : jsstring) (o : Observation) :
  parseRow raw = Normal (Some o) ->
  location o = nth 6 (tokenize (trim raw)) []
  /\ ~ In QUOTE (location o).
Proof.
  intros H. destruct (parseRow_Some raw o H) as (Hlen & _ & ->).
  cbn [location].
  assert (Hq : ~ In QUOTE (nth 6 (tokenize (trim raw)) [])).
  { pose proof (tokenize_no_quote (trim raw)) as Hall.
    rewrite Forall_forall in Hall. apply Hall, nth_In. lia. }
  rewrite remove_quotes_none by exact Hq. now split.
Qed.

Lemma location_is_field_6_witness :
  js "Forest, Lake"
  = nth 6 (tokenize (trim (js "1,2,3,Robin,Turdus,5,"
                             ++ quoted (js "Forest, Lake")
                             ++ js ",US-NY,01 Jan 2024"))) []
  /\ ~ In QUOTE (js "Forest, Lake").
Proof.
  apply (location_is_field_6
           (js "1,2,3,Robin,Turdus,5," ++ quoted (js "Forest, Lake")
              ++ js ",US-NY,01 Jan 2024")
           {| date := js "2024-01-01"; sciName := str (js "Turdus");
              common := str (js "Robin"); location := js "Forest, Lake";
              region := str (js "US-NY") |}).
  reflexivity.
Defined.

Lemma scan_columns_length (line : jsstring) (st : scan) :
  (length (columns (fold_left scan_char line st))
   <= length (columns st) + count_occ N.eq_dec line COMMA)%nat.
Proof.
  revert st. induction line as [|c line IH]; intros st.
  - cbn. lia.
  - cbn [fold_left]. etransitivity; [apply IH|].
    unfold scan_char.
    destruct (N.eq_dec c COMMA) as [->|Hc].
    + rewrite count_occ_cons_eq by reflexivity.
      cbn [N.eqb COMMA QUOTE Pos.eqb].
      destruct (negb (inQuotes st)); cbn [andb columns];
        rewrite ?length_app; cbn [length]; lia.
    + rewrite count_occ_cons_neq by exact Hc.
      apply N.eqb_neq in Hc. rewrite Hc.
      destruct (c =? QUOTE)%N; cbn [andb columns]; lia.
Qed.

(** X5: a row yields at most one field more than it has commas, so a row
    with fewer than eight commas yields no observation, quotes or not. *)
Theorem too_few_commas (raw : jsstring) :
  (length (tokenize (trim raw))
   <= 1 + count_occ N.eq_dec (trim raw) COMMA)%nat
  /\ ((count_occ N.eq_dec (trim raw) COMMA < 8)%nat ->
      parseRow raw = Normal None).
Proof.
  assert (Hlen : (length (tokenize (trim raw))
                  <= 1 + count_occ N.eq_dec (trim raw) COMMA)%nat).
  { unfold tokenize, finish, scan_line. rewrite length_app. cbn [length].
    pose proof (scan_columns_length (trim raw) scan_start) as H.
    cbn [scan_start columns length] in H. lia. }
  split; [exact Hlen|].
  intros H. apply parseRow_malformed. left. lia.
Qed.

Lemma too_few_commas_witness :
  parseRow (js "1,2,3,Robin,Turdus,5," ++ quoted (js "Lake") ++ js ",14 Dec 2025")
  = Normal None.
Proof.
  apply (proj2 (too_few_commas
                  (js "1,2,3,Robin,Turdus,5," ++ quoted (js "Lake")
                     ++ js ",14 Dec 2025"))).
  vm_compute. lia.
Defined.

(** ** What parseCSV returns *)

Lemma rows_loop_collected (rows : list jsstring) (acc : list Observation) :
  rows_loop rows acc = Normal (acc ++ collected rows).
Proof.
  revert acc. induction rows as [|raw rows IH]; intros acc.
  - cbn. now rewrite app_nil_r.
  - cbn [rows_loop collected flat_map]. unfold pushed at 1.
    destruct (parseRow_returns raw) as [[o|] ->]; cbn [bind].
    + rewrite IH. unfold collected. now rewrite <- app_assoc.
    + now rewrite IH.
Qed.

Lemma parseCSV_collected (host : jsstring -> number) (text : jsstring) :
  parseCSV host text
  = Normal (sort host (collected (skipn 1 (split LF text)))).
Proof. rewrite parseCSV_rows, rows_loop_collected. reflexivity. Qed.

(** X6: the array returned holds the records pushed for the lines after
    the first, each as often as it was pushed: the sort neither drops nor
    repeats a record, and the number of records is the number of lines that
    gave one. *)
Theorem parseCSV_keeps_every_record (host : jsstring -> number)
  (text : jsstring) :
  exists obs,
    parseCSV host text = Normal obs
    /\ Permutation obs (collected (skipn 1 (split LF text)))
    /\ length obs = length (collected (skipn 1 (split LF text))).
Proof.
  exists (sort host (collected (skipn 1 (split LF text)))).
  split; [apply parseCSV_collected|].
  split; [apply sort_perm|]. apply Permutation_length, sort_perm.
Qed.

Lemma str_eqb_refl (s : jsstring) : str_eqb s s = true.
Proof.
  induction s as [|c s IH]; [reflexivity|]. cbn. now rewrite N.eqb_refl.
Qed.

Lemma same_date_not_positive (host : jsstring -> number)
  (a b : Observation) :
  date a = date b -> positive (compare_dates host a b) = false.
Proof.
  intros E. unfold compare_dates. rewrite E.
  destruct (Date_parse host (date b)) as [x|]; [|reflexivity].
  cbn [positive]. apply Z.ltb_ge. lia.
Qed.

Lemma on_date_insert (host : jsstring -> number) (d : jsstring)
  (a : Observation) (l : list Observation) :
  on_date d (insert host a l) = on_date d (a :: l).
Proof.
  unfold on_date. induction l as [|b l IH]; [reflexivity|].
  cbn [insert]. destruct (positive (compare_dates host a b)) eqn:Hp;
    [|reflexivity].
  cbn [filter] in *. rewrite IH.
  destruct (str_eqb (date a) d) eqn:Ea; [|reflexivity].
  destruct (str_eqb (date b) d) eqn:Eb; [|reflexivity].
  apply str_eqb_eq in Ea, Eb.
  rewrite same_date_not_positive in Hp by congruence. discriminate Hp.
Qed.

Lemma on_date_sort (host : jsstring -> number) (d : jsstring)
  (l : list Observation) :
  on_date d (sort host l) = on_date d l.
Proof.
  induction l as [|a l IH]; [reflexivity|].
  cbn [sort]. rewrite on_date_insert. unfold on_date in *. cbn [filter].
  now rewrite IH.
Qed.

(** X7: the sort is stable on the dates: where every date returned is a
    day of the calendar (the comparator is then consistent, and the order
    is the one the language fixes), the records of one date come out in
    the order of their rows. *)
Theorem same_date_keeps_row_order (host : jsstring -> number)
  (text : jsstring) (obs : list Observation) (d : jsstring) :
  parseCSV host text = Normal obs ->
  Forall (fun o => valid_iso_date (date o) = true) obs ->
  on_date d obs = on_date d (collected (skipn 1 (split LF text))).
Proof.
  rewrite parseCSV_collected. intros H _. injection H as <-.
  apply on_date_sort.
Qed.

Lemma sort_sorted_id (host : jsstring -> number) (l : list Observation) :
  Sorted (time_le host) l -> sort host l = l.
Proof.
  induction 1 as [|a l Hs IH Hhd]; [reflexivity|].
  cbn [sort]. rewrite IH. destruct Hhd as [|b l (x & y & Hx & Hy & Hxy)];
    [reflexivity|].
  cbn [insert]. unfold compare_dates. rewrite Hx, Hy. cbn [positive].
  now replace (0 <? x - y)%Z with false by (symmetry; apply Z.ltb_ge; lia).
Qed.

(** X8: sorting the array returned once more with the same comparator
    changes nothing, where every date returned is a day of the calendar. *)
Theorem parseCSV_sort_again (host : jsstring -> number)
  (text : jsstring) (obs : list Observation) :
  parseCSV host text = Normal obs ->
  Forall (fun o => valid_iso_date (date o) = true) obs ->
  sort host obs = obs.
Proof.
  rewrite parseCSV_collected. intros H Hvalid. injection H as <-.
  apply sort_sorted_id, sort_sorted.
  apply (Permutation_Forall (sort_perm host _)).
  eapply Forall_impl; [|exact Hvalid]. apply valid_has_time.
Qed.

Lemma split_snoc_sep (sep : char) (s : jsstring) :
  split sep (s ++ [sep]) = split sep s ++ [[]].
Proof.
  induction s as [|c s IH]; cbn [app split].
  - now rewrite N.eqb_refl.
  - rewrite IH. destruct (c =? sep)%N; [reflexivity|].
    destruct (split sep s) eqn:E; [|reflexivity].
    now destruct (split_not_nil sep s).
Qed.

(** X9: a line feed at the end of the text adds no record. *)
Theorem trailing_line_feed (host : jsstring -> number) (text : jsstring) :
  parseCSV host (text ++ [LF]) = parseCSV host text.
Proof.
  rewrite !parseCSV_rows, split_snoc_sep.
  destruct (split LF text) as [|h rows] eqn:E;
    [now destruct (split_not_nil LF text)|].
  cbn [app skipn].
  now rewrite (rows_loop_drop rows [] [] [] eq_refl), app_nil_r.
Qed.

Lemma same_date_keeps_row_order_witness :
  on_date (js "2024-05-03")
    [ {| date := js "2024-05-03"; sciName := str (js "Turdus");
         common := str (js "Robin"); location := js "Park";
         region := str (js "US-NY") |};
      {| date := js "2024-05-03"; sciName := str (js "Strix");
         common := str (js "Owl"); location := js "Wood";
         region := str (js "US-NY") |};
      {| date := js "2025-01-01"; sciName := str (js "Troglodytes");
         common := str (js "Wren"); location := js "Yard";
         region := str (js "US-NY") |} ]
  = on_date (js "2024-05-03")
      (collected (skipn 1 (split LF
         (join LF [js "header";
                   js "1,2,3,Robin,Turdus,5,Park,US-NY,3 May 2024";
                   js "1,2,3,Wren,Troglodytes,5,Yard,US-NY,1 Jan 2025";
                   js "1,2,3,Owl,Strix,5,Wood,US-NY,03 May 2024"])))).
Proof.
  apply (same_date_keeps_row_order date_only_host
           (join LF [js "header";
                     js "1,2,3,Robin,Turdus,5,Park,US-NY,3 May 2024";
                     js "1,2,3,Wren,Troglodytes,5,Yard,US-NY,1 Jan 2025";
                     js "1,2,3,Owl,Strix,5,Wood,US-NY,03 May 2024"])).
  - reflexivity.
  - repeat constructor.
Defined.

Lemma parseCSV_sort_again_witness :
  sort date_only_host
    [ {| date := js "2021-11-02"; sciName := str (js "Troglodytes");
         common := str (js "Wren"); location := js "Yard";
         region := str (js "US-NY") |};
      {| date := js "2023-05-10"; sciName := str (js "Turdus");
         common := str (js "Robin"); location := js "Park";
         region := str (js "US-NY") |} ]
  = [ {| date := js "2021-11-02"; sciName := str (js "Troglodytes");
         common := str (js "Wren"); location := js "Yard";
         region := str (js "US-NY") |};
      {| date := js "2023-05-10"; sciName := str (js "Turdus");
         common := str (js "Robin"); location := js "Park";
         region := str (js "US-NY") |} ].
Proof.
  apply (parseCSV_sort_again date_only_host
           (join LF [js "header";
                     js "1,2,3,Robin,Turdus,5,Park,US-NY,10 May 2023";
                     js "1,2,3,Wren,Troglodytes,5,Yard,US-NY,2 Nov 2021"])).
  - reflexivity.
  - repeat constructor.
Defined.

(** ** The line logged for the latest record *)






Example latest_line_scenario :
  latest_line
    [ {| date := js "2021-11-02"; sciName := str (js "Troglodytes");
         common := str (js "Wren"); location := js "Yard";
         region := str (js "US-NY") |};
      {| date := js "2023-05-10"; sciName := str (js "Turdus");
         common := str (js "Robin"); location := js "Park";
         region := str (js "US-NY") |} ]
  = Normal (Some (js "   Latest: Robin (2023-05-10)")).
Proof. reflexivity. Qed.

(** ** More on the date normalizer *)

Lemma trim_start_all_ws (b : jsstring) :
  forallb is_white_space b = true -> trim_start b = [].
Proof.
  induction b as [|c b IH]; [reflexivity|]. cbn [forallb trim_start].
  intros H. apply andb_prop in H as [-> H]. now apply IH.
Qed.

Lemma trim_end_app_ws (s b : jsstring) :
  forallb is_white_space b = true -> trim_end (s ++ b) = trim_end s.
Proof.
  intros Hb. induction s as [|c s IH].
  - cbn [app trim_end]. induction b as [|w b IHb]; [reflexivity|].
    cbn [forallb] in Hb. apply andb_prop in Hb as [Hw Hb].
    cbn [trim_end]. now rewrite (IHb Hb), Hw.
  - cbn [app trim_end]. now rewrite IH.
Qed.

Lemma trim_app_ws (s b : jsstring) :
  forallb is_white_space b = true -> trim (s ++ b) = trim s.
Proof.
  intros Hb. unfold trim. induction s as [|c s IH].
  - cbn [app]. now rewrite (trim_start_all_ws b Hb).
  - cbn [app trim_start]. destruct (is_white_space c); [exact IH|].
    now apply (trim_end_app_ws (c :: s) b).
Qed.

Lemma trim_ws_app (a s : jsstring) :
  forallb is_white_space a = true -> trim (a ++ s) = trim s.
Proof.
  intros Ha. unfold trim. f_equal. induction a as [|c a IH]; [reflexivity|].
  cbn [forallb] in Ha. apply andb_prop in Ha as [Hc Ha].
  cbn [app trim_start]. rewrite Hc. now apply IH.
Qed.

(** X11: white space around the date text, and around a line, changes
    nothing: both are trimmed before anything else is done. *)
Theorem white_space_around (a b : jsstring) :
  forallb is_white_space a = true -> forallb is_white_space b = true ->
  (forall s, parseEbirdDate (str (a ++ s ++ b)) = parseEbirdDate (str s))
  /\ (forall raw, parseRow (a ++ raw ++ b) = parseRow raw).
Proof.
  intros Ha Hb.
  assert (E : forall s, trim (a ++ s ++ b) = trim s).
  { intros s. now rewrite trim_ws_app, trim_app_ws. }
  split.
  - intros s. unfold parseEbirdDate. cbn [receiver bind]. now rewrite E.
  - intros raw. apply parseRow_trim, E.
Qed.

Lemma white_space_around_witness :
  (forall s,
      parseEbirdDate (str ([TAB; SPACE] ++ s ++ [SPACE; CR]))
      = parseEbirdDate (str s))
  /\ (forall raw, parseRow ([TAB; SPACE] ++ raw ++ [SPACE; CR]) = parseRow raw).
Proof.
  apply (white_space_around [TAB; SPACE] [SPACE; CR]); reflexivity.
Defined.

Lemma not_In_padStart2 (c : char) (d : jsstring) :
  c <> 48%N -> ~ In c d -> ~ In c (padStart2 d).
Proof.
  intros Hc Hd H. unfold padStart2 in H.
  apply in_app_or in H as [H|H]; [|now apply Hd].
  apply repeat_spec in H. now apply Hc.
Qed.

(** X12: the date returned splits back on its hyphens into the year, the
    month number and the padded day, when neither the year nor the day
    text holds a hyphen. *)
Theorem date_splits_back (s d m y mm : jsstring) :
  split SPACE (trim s) = [d; m; y] -> assoc m months = Some mm ->
  ~ In HYPHEN d -> ~ In HYPHEN y ->
  exists r,
    parseEbirdDate (str s) = Normal (Some r)
    /\ split HYPHEN r = [y; mm; padStart2 d].
Proof.
  intros Hs Hm Hd Hy. eexists. split.
  - exact (parseEbirdDate_month s d m y mm Hs Hm).
  - change (js "-") with [HYPHEN]. cbn [app].
    rewrite split_app_sep by exact Hy.
    destruct (months_values m mm Hm) as (a & b & -> & Ha & Hb & _).
    rewrite split_app_sep.
    + rewrite split_no_sep; [reflexivity|].
      apply not_In_padStart2; [discriminate|exact Hd].
    + unfold HYPHEN. intros [H|[H|[]]]; lia.
Qed.

Lemma date_splits_back_witness :
  exists r,
    parseEbirdDate (str (js "9 Mar 2021")) = Normal (Some r)
    /\ split HYPHEN r = [js "2021"; js "03"; padStart2 (js "9")].
Proof.
  apply (date_splits_back (js "9 Mar 2021") (js "9") (js "Mar") (js "2021")
           (js "03")); try reflexivity; vm_compute; intuition discriminate.
Defined.

Lemma months_get_truthy (m : jsstring) :
  truthy (months_get (str m)) = false
  <-> assoc m months = None /\ assoc m Object_prototype = None.
Proof.
  unfold months_get. cbn [ToString].
  destruct (assoc m months) as [mm|] eqn:Em.
  - destruct (months_values m mm Em) as (a & b & -> & _). cbn.
    split; [discriminate|]. intros [H _]. discriminate H.
  - destruct (assoc m Object_prototype) as [o|]; cbn.
    + split; [discriminate|]. intros [_ H]. discriminate H.
    + now split.
Qed.

(** X13: the normalizer returns [null] on a string in exactly two cases:
    the trimmed text does not split on single spaces into three parts, or
    the second part is neither a key of [months] nor the name of a property
    of [Object.prototype]. *)
Theorem parseEbirdDate_null (s : jsstring) :
  parseEbirdDate (str s) = Normal None
  <-> length (split SPACE (trim s)) <> 3%nat
      \/ (exists d m y,
             split SPACE (trim s) = [d; m; y]
             /\ assoc m months = None /\ assoc m Object_prototype = None).
Proof.
  destruct (split SPACE (trim s)) as [|d [|m [|y [|z parts]]]] eqn:E.
  1-3, 5: split; [intros _; left; cbn; lia|];
    intros _; unfold parseEbirdDate; cbn [receiver bind]; now rewrite E.
  rewrite (parseEbirdDate_parts s d m y E). split.
  - destruct (truthy (months_get (str m))) eqn:Ht; cbn [negb];
      [discriminate|].
    intros _. right. exists d, m, y. split; [reflexivity|].
    now apply months_get_truthy.
  - intros [H|(d' & m' & y' & E' & Hm)]; [now cbn in H|].
    injection E' as <- <- <-. apply months_get_truthy in Hm.
    now rewrite Hm.
Qed.

Lemma parseEbirdDate_null_witness :
  parseEbirdDate (str (js "05 Xyz 2020")) = Normal None.
Proof.
  apply (proj2 (parseEbirdDate_null (js "05 Xyz 2020"))).
  right. exists (js "05"), (js "Xyz"), (js "2020"). repeat split.
Defined.

(** ** The login test *)

Lemma starts_with_app (sub p s : jsstring) :
  starts_with sub p = true -> starts_with sub (p ++ s) = true.
Proof.
  revert p. induction sub as [|c sub IH]; intros [|d p]; cbn;
    try discriminate; try reflexivity.
  intros H. apply andb_prop in H as [-> H]. now apply IH.
Qed.

Lemma includes_app (p s sub : jsstring) :
  includes p sub = true -> includes (p ++ s) sub = true.
Proof.
  induction p as [|d p IH]; cbn [includes app].
  - rewrite orb_false_r. intros H. destruct sub; [|discriminate H].
    now destruct s.
  - intros H. apply orb_prop in H as [H|H]; apply orb_true_intro.
    + left. now apply (starts_with_app sub (d :: p) s).
    + right. now apply IH.
Qed.

(** X14: an address that starts with the one of the login page, whatever
    follows it, counts as a failed login: it holds [login]. *)
Theorem still_on_login_page (rest : jsstring) :
  login_failed (login_page ++ rest) = true.
Proof.
  unfold login_failed. apply orb_true_intro. left.
  now apply includes_app.
Qed.
